(** * author.txt: the Author DSL parser and its plugin manager

    A shallow embedding of the TypeScript sources

    - the parser module ([validateInput], [assignValue], [parseKeyValue],
      [processValue], [handleMultilineContent], [handleBlockStart],
      [handleBlockEnd], [parseAuthorDSL]),
    - [plugins/types] (the plugin interfaces),
    - [plugins/manager] (class [PluginManager]),

    followed by the properties of the specification, each stated over these
    definitions.

    Modelling conventions.
    - A JavaScript string is a [string]: a sequence of code units below 256.
      White space is the ECMAScript set restricted to that range.
    - A thrown exception is the [Err] side of [result].
    - Plugin methods are functions of the model; a method that throws returns
      [Err]. Plugins are taken to leave the objects they are handed untouched.
    - Object identity of a plugin is its [ident].
    - An object is a plain object: its prototype is [Object.prototype]. The
      one way a document changes the prototype of a frame is an assignment to
      [__proto__], which calls the setter held by [Object.prototype]; the
      model does not follow a run past that point and answers [OutOfModel]
      there, an outcome that is neither a return nor a throw. Wherever the
      model answers [Ok] or [Err] the frames are plain objects. *)

From Stdlib Require Import ZArith Ascii String List Bool Lia.
From stdpp Require Import base tactics option list gmap strings pretty.

Local Open Scope Z_scope.
#[local] Set Warnings "-register-all".

(** ** JavaScript strings *)

Module JS.

Definition dquote : ascii := "034"%char.
Definition LF : ascii := "010"%char.
Definition CR : ascii := "013"%char.

(** The string made of three double quotes, the multiline marker. *)
Definition tripleQuote : string :=
  String dquote (String dquote (String dquote EmptyString)).

(** [WhiteSpace] and [LineTerminator] code units below 256: what
    [String.prototype.trim] removes and what [\s] matches. *)
Definition isWhiteSpace (c : ascii) : bool :=
  let n := nat_of_ascii c in
  (n =? 9)%nat || (n =? 10)%nat || (n =? 11)%nat || (n =? 12)%nat
  || (n =? 13)%nat || (n =? 32)%nat || (n =? 160)%nat.

Fixpoint srev_app (s acc : string) : string :=
  match s with
  | EmptyString => acc
  | String c r => srev_app r (String c acc)
  end.

Definition srev (s : string) : string := srev_app s EmptyString.

Fixpoint trimStart (s : string) : string :=
  match s with
  | EmptyString => EmptyString
  | String c r => if isWhiteSpace c then trimStart r else s
  end.

Definition trimEnd (s : string) : string := srev (trimStart (srev s)).

Definition trim (s : string) : string := trimEnd (trimStart s).

Definition startsWith (s p : string) : bool := String.prefix p s.

Definition endsWith (s p : string) : bool := String.prefix (srev p) (srev s).

(** Relative index of [slice]: negative counts from the end, then clamp. *)
Definition relIndex (len i : Z) : Z :=
  if i <? 0 then Z.max (len + i) 0 else Z.min i len.

(** [s.slice(from, to)] *)
Definition slice (s : string) (from to : Z) : string :=
  let len := Z.of_nat (String.length s) in
  let a := relIndex len from in
  let b := relIndex len to in
  substring (Z.to_nat a) (Z.to_nat (b - a)) s.

(** [s.slice(from)] *)
Definition sliceFrom (s : string) (from : Z) : string :=
  slice s from (Z.of_nat (String.length s)).

(** [s.indexOf(c)] for a one-character search string; [-1] when absent. *)
Fixpoint indexOf (s : string) (c : ascii) : Z :=
  match s with
  | EmptyString => -1
  | String d r =>
      if Ascii.eqb d c then 0
      else let i := indexOf r c in if i =? -1 then -1 else i + 1
  end.

Definition includes (s : string) (c : ascii) : bool :=
  negb (indexOf s c =? -1).

Definition consHead (c : ascii) (l : list string) : list string :=
  match l with
  | h :: t => String c h :: t
  | [] => [String c EmptyString]
  end.

(** [s.split(c)] for a one-character separator. *)
Fixpoint split (s : string) (sep : ascii) : list string :=
  match s with
  | EmptyString => [EmptyString]
  | String c r =>
      if Ascii.eqb c sep then EmptyString :: split r sep
      else consHead c (split r sep)
  end.

(** [s.split(/\r?\n/)] *)
Fixpoint splitLines (s : string) : list string :=
  match s with
  | EmptyString => [EmptyString]
  | String c r =>
      if Ascii.eqb c LF then EmptyString :: splitLines r
      else
        match r with
        | String d r' =>
            if Ascii.eqb c CR && Ascii.eqb d LF
            then EmptyString :: splitLines r'
            else consHead c (splitLines r)
        | EmptyString => consHead c (splitLines r)
        end
  end.

(** [l.join(sep)] on an array of strings. *)
Fixpoint join (l : list string) (sep : string) : string :=
  match l with
  | [] => EmptyString
  | [s] => s
  | s :: t => s +:+ sep +:+ join t sep
  end.

Definition toLower (c : ascii) : ascii :=
  let n := nat_of_ascii c in
  if (65 <=? n)%nat && (n <=? 90)%nat then ascii_of_nat (n + 32) else c.

(** Match of [kw] at the start of [s], ignoring ASCII case; the rest of
    [s] on success. [kw] is given in lower case. *)
Fixpoint matchWord (kw s : string) : option string :=
  match kw, s with
  | EmptyString, _ => Some s
  | String k kw', String c r =>
      if Ascii.eqb (toLower c) k then matchWord kw' r else None
  | String _ _, EmptyString => None
  end.

(** The regular expression [/^<kw>\s+/i]: on a match, what follows the
    matched prefix (the keyword and the longest run of white space). *)
Definition matchKeyword (kw s : string) : option string :=
  match matchWord kw s with
  | Some (String c r) =>
      if isWhiteSpace c then Some (trimStart r) else None
  | _ => None
  end.

(** [/^<kw>\s+/i.test(s)] *)
Definition test (kw s : string) : bool := bool_decide (is_Some (matchKeyword kw s)).

(** [s.replace(/^<kw>\s+/i, empty)]: the match is removed. *)
Definition replace (kw s : string) : string :=
  default s (matchKeyword kw s).

(** A JavaScript value, as far as documents and plugin results go.
    [VBuiltin] stands for a member found on [Object.prototype]. *)
Inductive value : Type :=
| VUndefined
| VNull
| VBool (b : bool)
| VNum (n : Z)
| VStr (s : string)
| VArr (items : list value)
| VObj (fields : list (string * value))
| VBuiltin (name : string).

(** ToBoolean *)
Definition truthy (v : value) : bool :=
  match v with
  | VUndefined | VNull => false
  | VBool b => b
  | VNum n => negb (n =? 0)
  | VStr s => negb (String.eqb s EmptyString)
  | VArr _ | VObj _ | VBuiltin _ => true
  end.

(** A plain object ([Record<string, any>]): its own properties in
    insertion order (the order of enumeration for keys that are not array
    indices). *)
Definition object := list (string * value).

Fixpoint getOwn (o : object) (k : string) : option value :=
  match o with
  | [] => None
  | (k', v) :: r => if String.eqb k' k then Some v else getOwn r k
  end.

(** Names every plain object inherits from [Object.prototype]. *)
Definition inheritedNames : list string :=
  [ "constructor"; "hasOwnProperty"; "isPrototypeOf"; "propertyIsEnumerable";
    "toLocaleString"; "toString"; "valueOf"; "__defineGetter__";
    "__defineSetter__"; "__lookupGetter__"; "__lookupSetter__"; "__proto__" ]%string.

Definition inherited (k : string) : bool :=
  existsb (String.eqb k) inheritedNames.

(** [o[k]] *)
Definition get (o : object) (k : string) : value :=
  match getOwn o k with
  | Some v => v
  | None => if inherited k then VBuiltin k else VUndefined
  end.

(** The own property [k] of [o] becomes [v] ([CreateDataProperty]): an own
    property keeps its place, a new one goes last. *)
Fixpoint defineOwn (o : object) (k : string) (v : value) : object :=
  match o with
  | [] => [(k, v)]
  | (k', v') :: r =>
      if String.eqb k' k then (k', v) :: r else (k', v') :: defineOwn r k v
  end.

(** [typeof v === 'object' || typeof v === 'function']: the values the
    setter of [__proto__] takes as a prototype. *)
Definition isObjectOrNull (v : value) : bool :=
  match v with
  | VNull | VArr _ | VObj _ | VBuiltin _ => true
  | VUndefined | VBool _ | VNum _ | VStr _ => false
  end.

(** [o[k] = v] on a plain object. An own property gets the value. A name
    that [o] does not have becomes an own property, whether
    [Object.prototype] has a member of that name or not, with one
    exception: [__proto__] is an accessor of [Object.prototype], and the
    assignment calls its setter. The setter ignores a primitive and
    re-links the prototype of [o] to an object or [null]; what [o] is then
    is not a plain object: [None]. *)
Definition set (o : object) (k : string) (v : value) : option object :=
  match getOwn o k with
  | Some _ => Some (defineOwn o k v)
  | None =>
      if String.eqb k "__proto__"
      then if isObjectOrNull v then None else Some o
      else Some (defineOwn o k v)
  end.

(** [s.toLowerCase()] on code units below 256: the ASCII capitals and the
    Latin-1 capitals (all of 192 to 222 but the multiplication sign). *)
Definition toLowerCaseUnit (c : ascii) : ascii :=
  let n := nat_of_ascii c in
  if ((65 <=? n)%nat && (n <=? 90)%nat)
     || ((192 <=? n)%nat && (n <=? 222)%nat && negb (n =? 215)%nat)
  then ascii_of_nat (n + 32) else c.

Fixpoint toLowerCase (s : string) : string :=
  match s with
  | EmptyString => EmptyString
  | String c r => String (toLowerCaseUnit c) (toLowerCase r)
  end.

Fixpoint parseDigits (s : string) (acc : N) : option N :=
  match s with
  | EmptyString => Some acc
  | String c r =>
      let n := N_of_ascii c in
      if ((48 <=? n) && (n <=? 57))%N then parseDigits r (acc * 10 + (n - 48))%N else None
  end.

(** A property key that is an array index: the canonical decimal numeral of
    an integer from 0 to 2^32 - 2. *)
Definition arrayIndex (k : string) : option N :=
  match k with
  | EmptyString => None
  | String c r =>
      if Ascii.eqb c "0" && negb (String.eqb r EmptyString) then None
      else
        match parseDigits k 0 with
        | Some n => if (n <? 4294967295)%N then Some n else None
        | None => None
        end
  end.

Fixpoint insertIndexed (n : N) (kv : string * value) (l : list (N * (string * value)))
  : list (N * (string * value)) :=
  match l with
  | [] => [(n, kv)]
  | (m, kv') :: r =>
      if (n <=? m)%N then (n, kv) :: l else (m, kv') :: insertIndexed n kv r
  end.

Fixpoint indexedEntries (o : object) : list (N * (string * value)) :=
  match o with
  | [] => []
  | (k, v) :: r =>
      match arrayIndex k with
      | Some n => insertIndexed n (k, v) (indexedEntries r)
      | None => indexedEntries r
      end
  end.

Definition namedEntries (o : object) : list (string * value) :=
  List.filter (fun kv => negb (bool_decide (is_Some (arrayIndex (fst kv))))) o.

(** [Object.entries(o)]: the array indices in ascending order, then the
    other keys in insertion order. *)
Definition entries (o : object) : list (string * value) :=
  map snd (indexedEntries o) ++ namedEntries o.

(** [Object.keys(o)] *)
Definition keys (o : object) : list string := map fst (entries o).

(** [l.indexOf(x)] on an array of strings; [-1] when absent. *)
Fixpoint indexOfArray (l : list string) (x : string) : Z :=
  match l with
  | [] => -1
  | y :: r =>
      if String.eqb y x then 0
      else let i := indexOfArray r x in if i =? -1 then -1 else i + 1
  end.

(** [l.filter((x, index) => f(x, index))], the indices counted from [i]. *)
Fixpoint filterFrom (f : string -> Z -> bool) (l : list string) (i : Z) : list string :=
  match l with
  | [] => []
  | x :: r => if f x i then x :: filterFrom f r (i + 1) else filterFrom f r (i + 1)
  end.

End JS.

Import JS.

(** ** Exceptions *)

(** What the sources throw: [DSLParseError] with the arguments of its
    constructor, [PluginError] with its [plugin], [code] and message, the
    engine's own [TypeError], and a bare [Error]. *)
Inductive exn : Type :=
| DSLParseError (message : string) (lineNumber : option nat) (line : option string)
| PluginError (plugin code message : string)
| TypeError (message : string)
| PlainError (message : string).

(** The [message] property. [DSLParseError]'s constructor calls
    [super(lineNumber ? `Line ${lineNumber}: ${message}` : message)]. *)
Definition errorMessage (e : exn) : string :=
  match e with
  | DSLParseError m (Some (S n)) _ => "Line " +:+ pretty (S n) +:+ ": " +:+ m
  | DSLParseError m _ _ => m
  | PluginError _ _ m => m
  | TypeError m => m
  | PlainError m => m
  end.

(** How a call ends: it returns, it throws, or the run has left what the
    model covers ([OutOfModel]: the model says nothing on what the code
    does). *)
Inductive result (A : Type) : Type :=
| Ok (a : A)
| Err (e : exn)
| OutOfModel.

Arguments Ok {A} a.
Arguments Err {A} e.
Arguments OutOfModel {A}.

#[global] Instance result_ret : MRet result := fun A a => Ok a.

#[global] Instance result_bind : MBind result :=
  fun A B f m => match m with Ok a => f a | Err e => Err e | OutOfModel => OutOfModel end.

(** A step that the model covers only in part. *)
Definition covered {A} (o : option A) : result A :=
  match o with
  | Some a => Ok a
  | None => OutOfModel
  end.

(** ** Plugin interfaces ([plugins/types.ts]) *)

Module Types.

Record PluginContext : Type := {
  ctx_lineNumber : nat;
  ctx_line : string;
  ctx_key : string;
  ctx_value : string;
  ctx_type : option string;
  ctx_data : object
}.

Record PluginMetadata : Type := {
  name : string;
  version : string;
  description : string
}.

(** The union [Plugin]: every optional member is a slot. A member that is a
    method is present exactly when the slot holds a function. *)
Record Plugin : Type := {
  ident : nat;
  metadata : PluginMetadata;
  initialize : option (unit -> result unit);
  destroy : option (unit -> result unit);
  supportedTypes : option (list string);
  processValue : option (string -> string -> PluginContext -> result value);
  validateValue : option (value -> string -> PluginContext -> result (option (list string)));
  validate : option (object -> result (list string));
  format : option (object -> value -> result string);
  supportedFormats : option (list string);
  beforeParse : option (string -> result string);
  afterParse : option (object -> result object);
  onKeyValue : option (string -> value -> PluginContext -> result (option (string * value)));
  onBlockStart : option (string -> PluginContext -> result unit);
  onBlockEnd : option (string -> PluginContext -> result unit)
}.

(** [config] is never read by the manager and is left out. *)
Record PluginOptions : Type := {
  enabled : option bool;
  priority : option Z
}.

End Types.

(** ** The plugin manager ([plugins/manager.ts]) *)

(** The private fields of the class. [plugins] and [typePlugins] are [Map]s;
    their iteration order is not tracked. *)
Record PluginManager : Type := {
  plugins : gmap string (Types.Plugin * Types.PluginOptions);
  typePlugins : gmap string Types.Plugin;
  validationPlugins : list Types.Plugin;
  formatterPlugins : list Types.Plugin;
  parserPlugins : list Types.Plugin
}.

Module Manager.
Import Types.

(** [new PluginManager()] *)
Definition create : PluginManager := {|
  plugins := ∅; typePlugins := ∅;
  validationPlugins := []; formatterPlugins := []; parserPlugins := []
|}.

Definition pluginName (p : Plugin) : string := name (metadata p).

Definition createPluginError (pluginName code : string) (originalError : exn) : exn :=
  let m := errorMessage originalError in
  PluginError pluginName code
    ("Plugin " +:+ pluginName +:+ " error: "
       +:+ (if String.eqb m EmptyString then "Unknown error" else m)).

(** Run a plugin method inside [try { ... } catch (error) { throw
    this.createPluginError(name, code, error) }]. *)
Definition guarded {A} (p : Plugin) (code : string) (r : result A) : result A :=
  match r with
  | Ok a => Ok a
  | Err e => Err (createPluginError (pluginName p) code e)
  | OutOfModel => OutOfModel
  end.

Definition isTypePlugin (p : Plugin) : bool :=
  bool_decide (is_Some (supportedTypes p)) && bool_decide (is_Some (processValue p)).

Definition isValidationPlugin (p : Plugin) : bool :=
  bool_decide (is_Some (validate p)).

Definition isFormatterPlugin (p : Plugin) : bool :=
  bool_decide (is_Some (format p)) && bool_decide (is_Some (supportedFormats p)).

Definition isParserPlugin (p : Plugin) : bool :=
  bool_decide (is_Some (beforeParse p)) || bool_decide (is_Some (afterParse p))
  || bool_decide (is_Some (onKeyValue p)) || bool_decide (is_Some (onBlockStart p))
  || bool_decide (is_Some (onBlockEnd p)).

(** [this.plugins.get(p.metadata.name)?.options.priority || 0] *)
Definition priorityOf (pm : PluginManager) (p : Plugin) : Z :=
  match plugins pm !! pluginName p with
  | Some (_, o) => default 0 (priority o)
  | None => 0
  end.

(** [Array.prototype.sort] with the comparator [(a, b) => prio b - prio a]:
    a stable sort, here by insertion. *)
Fixpoint insertByPriority (prio : Plugin -> Z) (x : Plugin) (l : list Plugin) : list Plugin :=
  match l with
  | [] => [x]
  | y :: r =>
      if prio y - prio x <=? 0 then x :: y :: r
      else y :: insertByPriority prio x r
  end.

Fixpoint sortByPriority (prio : Plugin -> Z) (l : list Plugin) : list Plugin :=
  match l with
  | [] => []
  | x :: r => insertByPriority prio x (sortByPriority prio r)
  end.

(** [const i = l.indexOf(p); if (i > -1) l.splice(i, 1)], on identity. *)
Fixpoint removeFirst (p : Plugin) (l : list Plugin) : list Plugin :=
  match l with
  | [] => []
  | q :: r => if (ident q =? ident p)%nat then r else q :: removeFirst p r
  end.

Definition registerTypePlugin (pm : PluginManager) (p : Plugin) : PluginManager :=
  {| plugins := plugins pm;
     typePlugins :=
       foldl (fun m type => <[type := p]> m) (typePlugins pm) (default [] (supportedTypes p));
     validationPlugins := validationPlugins pm;
     formatterPlugins := formatterPlugins pm;
     parserPlugins := parserPlugins pm |}.

Definition unregisterTypePlugin (pm : PluginManager) (p : Plugin) : PluginManager :=
  {| plugins := plugins pm;
     typePlugins :=
       foldl (fun m type => delete type m) (typePlugins pm) (default [] (supportedTypes p));
     validationPlugins := validationPlugins pm;
     formatterPlugins := formatterPlugins pm;
     parserPlugins := parserPlugins pm |}.

Definition registerValidationPlugin (pm : PluginManager) (p : Plugin) : PluginManager :=
  {| plugins := plugins pm;
     typePlugins := typePlugins pm;
     validationPlugins := sortByPriority (priorityOf pm) (validationPlugins pm ++ [p]);
     formatterPlugins := formatterPlugins pm;
     parserPlugins := parserPlugins pm |}.

Definition unregisterValidationPlugin (pm : PluginManager) (p : Plugin) : PluginManager :=
  {| plugins := plugins pm;
     typePlugins := typePlugins pm;
     validationPlugins := removeFirst p (validationPlugins pm);
     formatterPlugins := formatterPlugins pm;
     parserPlugins := parserPlugins pm |}.

Definition registerFormatterPlugin (pm : PluginManager) (p : Plugin) : PluginManager :=
  {| plugins := plugins pm;
     typePlugins := typePlugins pm;
     validationPlugins := validationPlugins pm;
     formatterPlugins := formatterPlugins pm ++ [p];
     parserPlugins := parserPlugins pm |}.

Definition unregisterFormatterPlugin (pm : PluginManager) (p : Plugin) : PluginManager :=
  {| plugins := plugins pm;
     typePlugins := typePlugins pm;
     validationPlugins := validationPlugins pm;
     formatterPlugins := removeFirst p (formatterPlugins pm);
     parserPlugins := parserPlugins pm |}.

Definition registerParserPlugin (pm : PluginManager) (p : Plugin) : PluginManager :=
  {| plugins := plugins pm;
     typePlugins := typePlugins pm;
     validationPlugins := validationPlugins pm;
     formatterPlugins := formatterPlugins pm;
     parserPlugins := sortByPriority (priorityOf pm) (parserPlugins pm ++ [p]) |}.

Definition unregisterParserPlugin (pm : PluginManager) (p : Plugin) : PluginManager :=
  {| plugins := plugins pm;
     typePlugins := typePlugins pm;
     validationPlugins := validationPlugins pm;
     formatterPlugins := formatterPlugins pm;
     parserPlugins := removeFirst p (parserPlugins pm) |}.

Definition when (b : bool) (f : PluginManager -> PluginManager) (pm : PluginManager) : PluginManager :=
  if b then f pm else pm.

(** [{ enabled: true, priority: 0, config: {}, ...options }] *)
Definition defaultOptions (options : PluginOptions) : PluginOptions :=
  {| enabled := Some (default true (enabled options));
     priority := Some (default 0 (priority options)) |}.

Definition noOptions : PluginOptions := {| enabled := None; priority := None |}.

(** [register(plugin, options)]: the manager after the call, and whether the
    call returned or threw. A failing [initialize] throws after the plugin
    has been entered everywhere. *)
Definition register (pm : PluginManager) (plugin : Plugin) (options : PluginOptions)
  : PluginManager * result unit :=
  let pm0 :=
    {| plugins := <[pluginName plugin := (plugin, defaultOptions options)]> (plugins pm);
       typePlugins := typePlugins pm;
       validationPlugins := validationPlugins pm;
       formatterPlugins := formatterPlugins pm;
       parserPlugins := parserPlugins pm |} in
  let pm1 := when (isTypePlugin plugin) (fun m => registerTypePlugin m plugin) pm0 in
  let pm2 := when (isValidationPlugin plugin) (fun m => registerValidationPlugin m plugin) pm1 in
  let pm3 := when (isFormatterPlugin plugin) (fun m => registerFormatterPlugin m plugin) pm2 in
  let pm4 := when (isParserPlugin plugin) (fun m => registerParserPlugin m plugin) pm3 in
  (pm4,
   match initialize plugin with
   | Some init => guarded plugin "INIT_FAILED" (init tt)
   | None => Ok tt
   end).

(** [unregister(pluginName)]: the manager after the call and what went to
    [console.warn]. *)
Definition unregister (pm : PluginManager) (pluginName : string)
  : PluginManager * list string :=
  match plugins pm !! pluginName with
  | None => (pm, [])
  | Some (plugin, _) =>
      let pm1 := when (isTypePlugin plugin) (fun m => unregisterTypePlugin m plugin) pm in
      let pm2 := when (isValidationPlugin plugin) (fun m => unregisterValidationPlugin m plugin) pm1 in
      let pm3 := when (isFormatterPlugin plugin) (fun m => unregisterFormatterPlugin m plugin) pm2 in
      let pm4 := when (isParserPlugin plugin) (fun m => unregisterParserPlugin m plugin) pm3 in
      let warned :=
        match destroy plugin with
        | Some d =>
            match d tt with
            | Err e => ["Error destroying plugin " +:+ pluginName +:+ ": " +:+ errorMessage e]
            | _ => []
            end
        | None => []
        end in
      ({| plugins := delete pluginName (plugins pm4);
          typePlugins := typePlugins pm4;
          validationPlugins := validationPlugins pm4;
          formatterPlugins := formatterPlugins pm4;
          parserPlugins := parserPlugins pm4 |}, warned)
  end.

Definition getPlugin (pm : PluginManager) (pluginName : string) : option Plugin :=
  fst <$> plugins pm !! pluginName.

Definition isRegistered (pm : PluginManager) (pluginName : string) : bool :=
  bool_decide (is_Some (plugins pm !! pluginName)).

(** [processValue(value, type, context)] *)
Definition processValue (pm : PluginManager) (value : string) (type : option string)
    (context : PluginContext) : result JS.value :=
  match type with
  | None => Ok (VStr value)
  | Some t =>
      if String.eqb t EmptyString then Ok (VStr value)
      else
        match typePlugins pm !! t with
        | None => Ok (VStr value)
        | Some plugin =>
            guarded plugin "PROCESS_VALUE_FAILED"
              match Types.processValue plugin with
              | Some f => f value t context
              | None => Err (TypeError "plugin.processValue is not a function")
              end
        end
  end.

(** [validateValue(value, type, context)] *)
Definition validateValue (pm : PluginManager) (value : JS.value) (type : string)
    (context : PluginContext) : result (list string) :=
  match typePlugins pm !! type with
  | None => Ok []
  | Some plugin =>
      match Types.validateValue plugin with
      | None => Ok []
      | Some f =>
          guarded plugin "VALIDATE_VALUE_FAILED"
            (w ← f value type context; Ok (default [] w))
      end
  end.

(** The body of [for (const plugin of this.validationPlugins)] in
    [validateData], with [allWarnings] as accumulator. *)
Fixpoint validateLoop (l : list Plugin) (data : object) (allWarnings : list string)
  : result (list string) :=
  match l with
  | [] => Ok allWarnings
  | plugin :: rest =>
      match guarded plugin "VALIDATE_DATA_FAILED"
              match validate plugin with
              | Some f => f data
              | None => Err (TypeError "plugin.validate is not a function")
              end
      with
      | Ok warnings => validateLoop rest data (allWarnings ++ warnings)
      | Err e => Err e
      | OutOfModel => OutOfModel
      end
  end.

(** [validateData(data)] *)
Definition validateData (pm : PluginManager) (data : object) : result (list string) :=
  validateLoop (validationPlugins pm) data [].

Definition supports (format : string) (p : Plugin) : bool :=
  existsb (String.eqb format) (default [] (supportedFormats p)).

(** [formatData(data, format, options)] *)
Definition formatData (pm : PluginManager) (data : object) (format : string)
    (options : JS.value) : result string :=
  match List.find (supports format) (formatterPlugins pm) with
  | None => Err (PlainError ("No formatter plugin found for format: " +:+ format))
  | Some plugin =>
      guarded plugin "FORMAT_FAILED"
        match Types.format plugin with
        | Some f => f data options
        | None => Err (TypeError "plugin.format is not a function")
        end
  end.

(** [getAvailableFormats()]: a [Set] filled in order, then listed. *)
Definition getAvailableFormats (pm : PluginManager) : list string :=
  foldl (fun formats f => if existsb (String.eqb f) formats then formats else formats ++ [f])
    [] (concat (map (fun p => default [] (supportedFormats p)) (formatterPlugins pm))).

Fixpoint beforeParseLoop (l : list Plugin) (processedInput : string) : result string :=
  match l with
  | [] => Ok processedInput
  | plugin :: rest =>
      match Types.beforeParse plugin with
      | Some f =>
          match guarded plugin "BEFORE_PARSE_FAILED" (f processedInput) with
          | Ok s => beforeParseLoop rest s
          | Err e => Err e
          | OutOfModel => OutOfModel
          end
      | None => beforeParseLoop rest processedInput
      end
  end.

(** [beforeParse(input)] *)
Definition beforeParse (pm : PluginManager) (input : string) : result string :=
  beforeParseLoop (parserPlugins pm) input.

Fixpoint afterParseLoop (l : list Plugin) (processedData : object) : result object :=
  match l with
  | [] => Ok processedData
  | plugin :: rest =>
      match Types.afterParse plugin with
      | Some f =>
          match guarded plugin "AFTER_PARSE_FAILED" (f processedData) with
          | Ok d => afterParseLoop rest d
          | Err e => Err e
          | OutOfModel => OutOfModel
          end
      | None => afterParseLoop rest processedData
      end
  end.

(** [afterParse(data)] *)
Definition afterParse (pm : PluginManager) (data : object) : result object :=
  afterParseLoop (parserPlugins pm) data.

Fixpoint onKeyValueLoop (l : list Plugin) (result0 : string * JS.value)
    (context : PluginContext) : result (string * JS.value) :=
  match l with
  | [] => Ok result0
  | plugin :: rest =>
      match Types.onKeyValue plugin with
      | Some f =>
          match guarded plugin "ON_KEY_VALUE_FAILED" (f (fst result0) (snd result0) context) with
          | Ok (Some pluginResult) => onKeyValueLoop rest pluginResult context
          | Ok None => onKeyValueLoop rest result0 context
          | Err e => Err e
          | OutOfModel => OutOfModel
          end
      | None => onKeyValueLoop rest result0 context
      end
  end.

(** [onKeyValue(key, value, context)] *)
Definition onKeyValue (pm : PluginManager) (key : string) (value : JS.value)
    (context : PluginContext) : result (string * JS.value) :=
  onKeyValueLoop (parserPlugins pm) (key, value) context.

Fixpoint blockHookLoop (hook : Plugin -> option (string -> PluginContext -> result unit))
    (code : string) (l : list Plugin) (blockName : string) (context : PluginContext)
  : result unit :=
  match l with
  | [] => Ok tt
  | plugin :: rest =>
      match hook plugin with
      | Some f =>
          match guarded plugin code (f blockName context) with
          | Ok _ => blockHookLoop hook code rest blockName context
          | Err e => Err e
          | OutOfModel => OutOfModel
          end
      | None => blockHookLoop hook code rest blockName context
      end
  end.

(** [onBlockStart(blockName, context)] *)
Definition onBlockStart (pm : PluginManager) (blockName : string) (context : PluginContext)
  : result unit :=
  blockHookLoop Types.onBlockStart "ON_BLOCK_START_FAILED" (parserPlugins pm) blockName context.

(** [onBlockEnd(blockName, context)] *)
Definition onBlockEnd (pm : PluginManager) (blockName : string) (context : PluginContext)
  : result unit :=
  blockHookLoop Types.onBlockEnd "ON_BLOCK_END_FAILED" (parserPlugins pm) blockName context.

End Manager.

(** ** The parser ([index.ts]) *)

Module Parser.

Definition validateInput (input : string) : result unit :=
  if (String.length (trim input) =? 0)%nat
  then Err (DSLParseError "Input cannot be empty" None None)
  else Ok tt.

(** In the second branch [obj[key].push(value)] changes the array in
    place. The array is the value of an own property of [obj], as
    [Object.prototype] has no member that is an array. *)
Definition assignValue (obj : object) (key : string) (value : JS.value) : option object :=
  if negb (truthy (get obj key)) then set obj key value
  else
    match get obj key with
    | VArr items => Some (defineOwn obj key (VArr (items ++ [value])))
    | existing => set obj key (VArr [existing; value])
    end.

Definition parseKeyValue (line : string) (lineNumber : nat)
  : result (string * string * option string) :=
  let colonIndex := indexOf line ":" in
  if colonIndex =? -1
  then Err (DSLParseError "Invalid line format - missing colon" (Some lineNumber) (Some line))
  else
    let key := trim (slice line 0 colonIndex) in
    let value := trim (sliceFrom line (colonIndex + 1)) in
    if String.eqb key EmptyString
    then Err (DSLParseError "Empty key not allowed" (Some lineNumber) (Some line))
    else if includes key "@"
    then
      match split key "@" with
      | [k; t] =>
          let key := trim k in
          let type := trim t in
          if String.eqb type EmptyString
          then Err (DSLParseError "Empty type not allowed" (Some lineNumber) (Some line))
          else Ok (key, value, Some type)
      | _ =>
          Err (DSLParseError "Invalid type syntax - use Key@Type format"
                 (Some lineNumber) (Some line))
      end
    else Ok (key, value, None).

Definition nonEmpty (s : string) : bool := (0 <? String.length s)%nat.

(** The result is a string or an array of strings. *)
Definition processValue (value : string) : JS.value :=
  let quote := String dquote EmptyString in
  let value :=
    if startsWith value quote && endsWith value quote then slice value 1 (-1) else value in
  if includes value ","
  then VArr (map VStr (List.filter nonEmpty (map trim (split value ","))))
  else VStr value.

(** Returns whether the closing marker was seen, and the buffer after the
    [push]. *)
Definition handleMultilineContent (line : string) (multilineBuffer : list string)
  : bool * list string :=
  if endsWith (trim line) tripleQuote
  then (true, multilineBuffer ++ [slice (trim line) 0 (-3)])
  else (false, multilineBuffer ++ [line]).

(** The stack and the name stack are arrays: [push] appends, [pop] removes
    the last element, the top is the last element.

    [handleBlockStart] puts one and the same object [newBlock] into the
    array [current[name]] and on the stack. In the model the open block
    lives on the stack, its place in [current[name]] is the last element of
    that array, and [popBlock] writes the block back there when the stack is
    popped: from then on nothing reaches the block but through its parent.

    [current[name].push(newBlock)] on a value that is not an array: a
    primitive, a function and an object whose member [push] is not a
    function have no such method, and the call throws a [TypeError]. An
    object that holds a function under [push] is left to [OutOfModel]. *)
Definition setTop (stack : list object) (o : object) : list object :=
  removelast stack ++ [o].

Definition handleBlockStart (line : string) (lineNumber : nat)
    (stack : list object) (blockNames : list string)
  : result (list object * list string) :=
  let name := trim (replace "begin" line) in
  if String.eqb name EmptyString
  then Err (DSLParseError "Empty block name not allowed" (Some lineNumber) (Some line))
  else
    let newBlock : object := [] in
    match last stack with
    | None => Err (TypeError "Cannot read properties of undefined")
    | Some current =>
        current ← covered (if negb (truthy (get current name))
                           then set current name (VArr []) else Some current);
        match get current name with
        | VArr items =>
            let current := defineOwn current name (VArr (items ++ [VObj newBlock])) in
            Ok (setTop stack current ++ [newBlock], blockNames ++ [name])
        | VObj fields =>
            match get fields "push" with
            | VBuiltin _ => OutOfModel
            | _ => Err (TypeError "current[name].push is not a function")
            end
        | _ => Err (TypeError "current[name].push is not a function")
        end
    end.

Definition writeBack (parent : object) (name : string) (block : object) : object :=
  match get parent name with
  | VArr items =>
      match last items with
      | Some _ => defineOwn parent name (VArr (removelast items ++ [VObj block]))
      | None => parent
      end
  | _ => parent
  end.

(** [stack.pop()] *)
Definition popBlock (stack : list object) (name : string) : list object :=
  match last stack with
  | None => stack
  | Some block =>
      let rest := removelast stack in
      match last rest with
      | Some parent => setTop rest (writeBack parent name block)
      | None => rest
      end
  end.

Definition handleBlockEnd (line : string) (lineNumber : nat)
    (stack : list object) (blockNames : list string)
  : result (list object * list string) :=
  let name := trim (replace "end" line) in
  if String.eqb name EmptyString
  then Err (DSLParseError "Empty block name not allowed" (Some lineNumber) (Some line))
  else
    match last blockNames with
    | None => Err (DSLParseError "No open blocks to close" (Some lineNumber) (Some line))
    | Some lastName =>
        if negb (String.eqb lastName name)
        then Err (DSLParseError
                    ("Mismatched End: expected '" +:+ lastName +:+ "', got '" +:+ name +:+ "'")
                    (Some lineNumber) (Some line))
        else Ok (popBlock stack lastName, removelast blockNames)
    end.

(** The local variables of [parseAuthorDSL] that live across lines. *)
Record State : Type := {
  stack : list object;
  blockNames : list string;
  inMultiline : bool;
  multilineKey : option string;
  multilineBuffer : list string
}.

Definition initial : State := {|
  stack := [[]]; blockNames := [];
  inMultiline := false; multilineKey := None; multilineBuffer := []
|}.

Definition withStack (st : State) (stack' : list object) (names : list string) : State :=
  {| stack := stack'; blockNames := names;
     inMultiline := inMultiline st; multilineKey := multilineKey st;
     multilineBuffer := multilineBuffer st |}.

(** [assignValue(current, key, value)] with [current] the top of the stack. *)
Definition assignTop (st : State) (key : string) (value : JS.value) : result State :=
  match last (stack st) with
  | None => Err (TypeError "Cannot read properties of undefined")
  | Some current =>
      current ← covered (assignValue current key value);
      Ok (withStack st (setTop (stack st) current) (blockNames st))
  end.

Definition blockContext (st : State) (lineNumber : nat) (rawLine : string)
  : Types.PluginContext :=
  {| Types.ctx_lineNumber := lineNumber; Types.ctx_line := rawLine;
     Types.ctx_key := EmptyString; Types.ctx_value := EmptyString;
     Types.ctx_type := None; Types.ctx_data := default [] (last (stack st)) |}.

Definition keyValueContext (st : State) (lineNumber : nat) (rawLine key value : string)
    (type : option string) (processedValue : JS.value) : Types.PluginContext :=
  {| Types.ctx_lineNumber := lineNumber; Types.ctx_line := rawLine;
     Types.ctx_key := key;
     Types.ctx_value := match processedValue with VStr s => s | _ => value end;
     Types.ctx_type := type;
     Types.ctx_data := default [] (last (stack st)) |}.

(** The end of the loop body, from [let processedValue =
    processValue(value)] on: a one-line statement is assigned. *)
Definition assignKeyValue (pluginManager : option PluginManager) (st : State)
    (lineNumber : nat) (rawLine key value : string) (type : option string)
  : result State :=
  let processedValue := processValue value in
  match pluginManager with
  | Some pm =>
      let context := keyValueContext st lineNumber rawLine key value type processedValue in
      processedValue ← match type with
                       | Some t => Manager.processValue pm value (Some t) context
                       | None => Ok processedValue
                       end;
      pluginResult ← Manager.onKeyValue pm key processedValue context;
      (* [pluginResult] is an object, so [if (pluginResult)] holds *)
      assignTop st (fst pluginResult) (snd pluginResult)
  | None =>
      match type with
      | Some t =>
          assignTop st key (VObj [("type"%string, VStr t); ("value"%string, processedValue)])
      | None => assignTop st key processedValue
      end
  end.

(** One turn of the [for] loop of [parseAuthorDSL]. *)
Definition processLine (pluginManager : option PluginManager) (st : State)
    (lineNumber : nat) (rawLine : string) : result State :=
  if inMultiline st then
    let '(closed, buffer) := handleMultilineContent rawLine (multilineBuffer st) in
    if closed then
      st' ← assignTop st (default "null" (multilineKey st))
              (VStr (trim (join buffer (String LF EmptyString))));
      Ok {| stack := stack st'; blockNames := blockNames st';
            inMultiline := false; multilineKey := None; multilineBuffer := [] |}
    else
      Ok {| stack := stack st; blockNames := blockNames st;
            inMultiline := true; multilineKey := multilineKey st;
            multilineBuffer := buffer |}
  else
    let line := trim rawLine in
    if String.eqb line EmptyString || startsWith line "#" then Ok st
    else if test "begin" line then
      let blockName := trim (replace "begin" line) in
      _ ← match pluginManager with
          | Some pm => Manager.onBlockStart pm blockName (blockContext st lineNumber rawLine)
          | None => Ok tt
          end;
      '(stack', names) ← handleBlockStart line lineNumber (stack st) (blockNames st);
      Ok (withStack st stack' names)
    else if test "end" line then
      let blockName := trim (replace "end" line) in
      _ ← match pluginManager with
          | Some pm => Manager.onBlockEnd pm blockName (blockContext st lineNumber rawLine)
          | None => Ok tt
          end;
      '(stack', names) ← handleBlockEnd line lineNumber (stack st) (blockNames st);
      Ok (withStack st stack' names)
    else
      '(key, value, type) ← parseKeyValue line lineNumber;
      if startsWith value tripleQuote then
        let rest := sliceFrom value 3 in
        Ok {| stack := stack st; blockNames := blockNames st;
              inMultiline := true; multilineKey := Some key;
              multilineBuffer := if (0 <? String.length rest)%nat then [rest] else [] |}
      else assignKeyValue pluginManager st lineNumber rawLine key value type.

(** The [for] loop over [lines], from the line numbered [lineNumber]. *)
Fixpoint processLines (pluginManager : option PluginManager) (lines : list string)
    (lineNumber : nat) (st : State) : result State :=
  match lines with
  | [] => Ok st
  | rawLine :: rest =>
      st' ← processLine pluginManager st lineNumber rawLine;
      processLines pluginManager rest (S lineNumber) st'
  end.

(** What follows the loop: [stack.length !== 1] is the stack not being a
    singleton. *)
Definition finish (pluginManager : option PluginManager) (st : State) : result object :=
  match stack st with
  | [result0] =>
      if inMultiline st then
        Err (DSLParseError
               ("Unclosed multiline value for key: " +:+ default "null" (multilineKey st))
               None None)
      else
        match pluginManager with
        | Some pm => Manager.afterParse pm result0
        | None => Ok result0
        end
  | _ => Err (DSLParseError ("Unclosed block(s): " +:+ join (blockNames st) ", ") None None)
  end.

(** [parseAuthorDSL] from [const lines = processedInput.split(/\r?\n/)]
    on: the Parse Engine proper. *)
Definition parseEngine (processedInput : string) (pluginManager : option PluginManager)
  : result object :=
  st ← processLines pluginManager (splitLines processedInput) 1 initial;
  finish pluginManager st.

Definition parseAuthorDSL (input : string) (pluginManager : option PluginManager)
  : result object :=
  _ ← validateInput input;
  processedInput ← match pluginManager with
                   | Some pm => Manager.beforeParse pm input
                   | None => Ok input
                   end;
  parseEngine processedInput pluginManager.

Definition validateParsedData (data : object) (pluginManager : option PluginManager)
  : result (list string) :=
  let warnings : list string :=
    if negb (truthy (get data "Author")) && negb (truthy (get data "author"))
    then ["Warning: No author name specified"%string] else [] in
  let keys := JS.keys data in
  let lowerKeys := map toLowerCase keys in
  let duplicates :=
    filterFrom (fun key index => negb (indexOfArray lowerKeys key =? index)) lowerKeys 0 in
  let warnings :=
    if (0 <? length duplicates)%nat
    then warnings ++ ["Warning: Potential duplicate keys (case-insensitive): "
                        +:+ join duplicates ", "]
    else warnings in
  match pluginManager with
  | Some pm =>
      pluginWarnings ← Manager.validateData pm data;
      Ok (warnings ++ pluginWarnings)
  | None => Ok warnings
  end.



End Parser.

(** ** Sample plugins and inputs *)

Module Samples.
Import Types.

Definition newline : string := String LF EmptyString.

(** A parse hook whose [beforeParse] always throws. *)
Definition failingHook : Plugin := {|
  ident := 7;
  metadata := {| name := "failing"; version := "1.0.0"; description := EmptyString |};
  initialize := None; destroy := None;
  supportedTypes := None; processValue := None; validateValue := None;
  validate := None; format := None; supportedFormats := None;
  beforeParse := Some (fun _ => Err (PlainError "boom"));
  afterParse := None; onKeyValue := None; onBlockStart := None; onBlockEnd := None
|}.

Definition blankInput : string :=
  "  " +:+ newline +:+ String CR newline +:+ " ".

(** A type plugin for the tags [tags]; its result names the plugin. *)
Definition typePlugin (i : nat) (n : string) (tags : list string) : Plugin := {|
  ident := i;
  metadata := {| name := n; version := "1.0.0"; description := EmptyString |};
  initialize := None; destroy := None;
  supportedTypes := Some tags;
  processValue := Some (fun v t _ => Ok (VObj [("type"%string, VStr t); ("by"%string, VStr n)]));
  validateValue := None;
  validate := None; format := None; supportedFormats := None;
  beforeParse := None; afterParse := None; onKeyValue := None;
  onBlockStart := None; onBlockEnd := None
|}.

Definition linksPlugin : Plugin := typePlugin 1 "links" ["url"; "link"]%string.
Definition urlsPlugin : Plugin := typePlugin 2 "urls" ["url"]%string.

Definition twoTypePlugins : PluginManager :=
  fst (Manager.register (fst (Manager.register Manager.create linksPlugin Manager.noOptions))
         urlsPlugin Manager.noOptions).

(** A validator with the outcome [r] on every document. *)
Definition validator (i : nat) (n : string) (r : result (list string)) : Plugin := {|
  ident := i;
  metadata := {| name := n; version := "1.0.0"; description := EmptyString |};
  initialize := None; destroy := None;
  supportedTypes := None; processValue := None; validateValue := None;
  validate := Some (fun _ => r);
  format := None; supportedFormats := None;
  beforeParse := None; afterParse := None; onKeyValue := None;
  onBlockStart := None; onBlockEnd := None
|}.

Definition registerAll (l : list Plugin) : PluginManager :=
  foldl (fun pm p => fst (Manager.register pm p Manager.noOptions)) Manager.create l.

Definition warnA : Plugin := validator 11 "a" (Ok ["a1"; "a2"]%string).
Definition warnB : Plugin := validator 12 "b" (Ok ["b1"]%string).
Definition throwC : Plugin := validator 13 "c" (Err (PlainError "bad document")).

(** A formatter for the tags [tags] whose output is [out]. *)
Definition formatter (i : nat) (n : string) (tags : list string) (out : string) : Plugin := {|
  ident := i;
  metadata := {| name := n; version := "1.0.0"; description := EmptyString |};
  initialize := None; destroy := None;
  supportedTypes := None; processValue := None; validateValue := None;
  validate := None;
  format := Some (fun _ _ => Ok out);
  supportedFormats := Some tags;
  beforeParse := None; afterParse := None; onKeyValue := None;
  onBlockStart := None; onBlockEnd := None
|}.

Definition jsonOne : Plugin := formatter 21 "one" ["json"]%string "one".
Definition jsonTwo : Plugin := formatter 22 "two" ["json"; "yaml"]%string "two".

(** A parse hook with the given [beforeParse]. *)
Definition preprocessor (i : nat) (n : string) (f : string -> string) : Plugin := {|
  ident := i;
  metadata := {| name := n; version := "1.0.0"; description := EmptyString |};
  initialize := None; destroy := None;
  supportedTypes := None; processValue := None; validateValue := None;
  validate := None; format := None; supportedFormats := None;
  beforeParse := Some (fun input => Ok (f input));
  afterParse := None; onKeyValue := None; onBlockStart := None; onBlockEnd := None
|}.

Definition toUpper (c : ascii) : ascii :=
  let n := nat_of_ascii c in
  if (97 <=? n)%nat && (n <=? 122)%nat then ascii_of_nat (n - 32) else c.

Fixpoint toUpperCase (s : string) : string :=
  match s with
  | EmptyString => EmptyString
  | String c r => String (toUpper c) (toUpperCase r)
  end.

Definition upperHook : Plugin := preprocessor 31 "upper" toUpperCase.
Definition appendHook : Plugin :=
  preprocessor 32 "append" (fun s => s +:+ newline +:+ "extra: yes").

(** A parse hook whose [onKeyValue] marks the key and replaces the value. *)
Definition stampHook : Plugin := {|
  ident := 41;
  metadata := {| name := "stamp"; version := "1.0.0"; description := EmptyString |};
  initialize := None; destroy := None;
  supportedTypes := None; processValue := None; validateValue := None;
  validate := None; format := None; supportedFormats := None;
  beforeParse := None; afterParse := None;
  onKeyValue := Some (fun k _ _ => Ok (Some (k +:+ "!", VStr "seen")));
  onBlockStart := None; onBlockEnd := None
|}.

Definition quote : string := String dquote EmptyString.

(** The line [Key@custom:] followed by the quoted text [a, b]. *)
Definition typedInput : string := "Key@custom: " +:+ quote +:+ "a, b" +:+ quote.

(** Four lines: [Bio@multiline:] with the opening marker, [line1],
    [line2], the closing marker. *)
Definition bioInput : string :=
  "Bio@multiline: " +:+ tripleQuote +:+ newline +:+ "line1" +:+ newline
  +:+ "line2" +:+ newline +:+ tripleQuote.

(** Three lines: [Bio:] with the opening marker, [hello], the closing
    marker. *)
Definition helloMultiline : string :=
  "Bio: " +:+ tripleQuote +:+ newline +:+ "hello" +:+ newline +:+ tripleQuote.




Definition twoOpenBlocks : string :=
  "Begin P" +:+ newline +:+ "Begin Q" +:+ newline +:+ "X: 1".

Definition withPriority (n : Z) : PluginOptions :=
  {| enabled := None; priority := Some n |}.

(** Validators [a] at priority 1 and [b] at priority 5. *)
Definition prioritized : PluginManager :=
  fst (Manager.register (fst (Manager.register Manager.create warnA (withPriority 1)))
         warnB (withPriority 5)).


Definition missingColon : string := "A: 1" +:+ newline +:+ " B ".

Definition profileInput : string :=
  "Author: Lexi" +:+ newline +:+ "# profile" +:+ newline +:+ "Begin Profile"
  +:+ newline +:+ "  Skills: Assembly, Rust" +:+ newline +:+ "End Profile".

End Samples.

(** ** Predicates of the statements *)

(** A validator returns [w] on [data], or throws [e]. *)
Definition returns (data : object) (p : Types.Plugin) (w : list string) : Prop :=
  exists f, Types.validate p = Some f /\ f data = Ok w.

Definition throws (data : object) (p : Types.Plugin) (e : exn) : Prop :=
  exists f, Types.validate p = Some f /\ f data = Err e.

(** The frame stack is one deeper than the name stack. *)
Definition balanced (st : Parser.State) : Prop :=
  length (Parser.stack st) = S (length (Parser.blockNames st)).


(** ** Vocabulary of the further properties *)

From Stdlib Require Import Sorted.

(** White space dropped from the front of a list of code units. *)
Fixpoint dropWS (l : list ascii) : list ascii :=
  match l with
  | [] => []
  | c :: r => if isWhiteSpace c then dropWS r else l
  end.

(** White space dropped from the end. *)
Definition dropWSEnd (l : list ascii) : list ascii := rev (dropWS (rev l)).

(** A parser state seen from inside an open block: [base] are the frames
    and [names] the block names below it. *)
Definition lift (base : list object) (names : list string) (st : Parser.State)
  : Parser.State :=
  {| Parser.stack := base ++ Parser.stack st;
     Parser.blockNames := names ++ Parser.blockNames st;
     Parser.inMultiline := Parser.inMultiline st;
     Parser.multilineKey := Parser.multilineKey st;
     Parser.multilineBuffer := Parser.multilineBuffer st |}.

(** The list a new block is appended to: the list stored under [name], the
    empty list when nothing truthy is stored there, none otherwise. *)
Definition blockList (current : object) (name : string) : option (list value) :=
  match get current name with
  | VArr items => Some items
  | v => if truthy v then None else Some []
  end.

(** A value that is an object holding a function under [push]. *)
Definition hasPushMethod (v : value) : bool :=
  match v with
  | VObj fields => match get fields "push" with VBuiltin _ => true | _ => false end
  | _ => false
  end.

(** A line that, read as a statement, has the key [__proto__]. *)
Definition assignsProto (line : string) : bool :=
  match Parser.parseKeyValue (trim line) 0 with
  | Ok (key, _, _) => String.eqb key "__proto__"
  | _ => false
  end.

Definition noPush (kv : string * value) : Prop := hasPushMethod (snd kv) = false.

(** No property of a frame on the stack holds an object with a [push]
    method, and the pending key of a multiline value is not [__proto__]. *)
Definition tame (st : Parser.State) : Prop :=
  Forall (Forall noPush) (Parser.stack st)
  /\ Parser.multilineKey st <> Some "__proto__"%string.

(** Outside a multiline value the pending key and the buffer are reset. *)
Definition idle (st : Parser.State) : Prop :=
  Parser.inMultiline st = false
  /\ Parser.multilineKey st = None
  /\ Parser.multilineBuffer st = [].

(** The kinds of failure of a parse. *)
Definition isPluginError (e : exn) : Prop :=
  exists plugin code message, e = PluginError plugin code message.

Definition pushTypeError : exn := TypeError "current[name].push is not a function".

(** [e] is a [DSLParseError] that carries the number and the trimmed text of
    one of [lines], numbered from [first]. *)
Definition atLine (lines : list string) (first : nat) (e : exn) : Prop :=
  exists i line message,
    lines !! i = Some line
    /\ e = DSLParseError message (Some (first + i)%nat) (Some (trim line)).

(** The text the Parse Engine runs on. *)
Definition preprocessed (pm : option PluginManager) (input processedInput : string) : Prop :=
  match pm with
  | Some m => Manager.beforeParse m input = Ok processedInput
  | None => processedInput = input
  end.

(** A line that, read as a statement, carries no type annotation. *)
Definition untyped (line : string) : Prop :=
  forall n key value type,
    Parser.parseKeyValue (trim line) n = Ok (key, value, type) -> type = None.

(** [l] is [l0] put in order by [Array.prototype.sort] under the priorities
    [prio]: the same plugins, by non-increasing priority, plugins of equal
    priority in the order they have in [l0]. *)
Definition sortedFrom (prio : Types.Plugin -> Z) (l l0 : list Types.Plugin) : Prop :=
  Permutation l l0
  /\ StronglySorted (fun a b => prio b <= prio a) l
  /\ forall k, List.filter (fun p => prio p =? k) l = List.filter (fun p => prio p =? k) l0.

(** What the category lists and the two maps of a manager satisfy. *)
Record wellFormed (pm : PluginManager) : Prop := {
  wf_names : forall n p o, plugins pm !! n = Some (p, o) -> Manager.pluginName p = n;
  wf_types : forall t p, typePlugins pm !! t = Some p ->
             Manager.isTypePlugin p = true /\ In t (default [] (Types.supportedTypes p));
  wf_validation : Forall (fun p => Manager.isValidationPlugin p = true) (validationPlugins pm);
  wf_formatter : Forall (fun p => Manager.isFormatterPlugin p = true) (formatterPlugins pm);
  wf_parser : Forall (fun p => Manager.isParserPlugin p = true) (parserPlugins pm)
}.

(** The managers a program can build: from [new PluginManager()] by calls of
    [register] and [unregister]. *)
Inductive reachable : PluginManager -> Prop :=
| reachable_create : reachable Manager.create
| reachable_register pm p o :
    reachable pm -> reachable (fst (Manager.register pm p o))
| reachable_unregister pm n :
    reachable pm -> reachable (fst (Manager.unregister pm n)).

(** * Properties *)

Import Types.

(** ** Lemmas on objects and on the manager *)

(** [register] and [unregister] branch on the four category tests of the
    plugin: go through the sixteen cases. *)
Ltac by_categories p :=
  destruct (Manager.isTypePlugin p), (Manager.isValidationPlugin p),
    (Manager.isFormatterPlugin p), (Manager.isParserPlugin p); simpl; done.

Section ObjectLemmas.

Lemma getOwn_defineOwn_eq (o : object) (k : string) (v : value) :
  getOwn (defineOwn o k v) k = Some v.
Proof.
  induction o as [|[k' v'] r IH]; simpl.
  - by rewrite String.eqb_refl.
  - destruct (String.eqb k' k) eqn:E; simpl; rewrite E; [done | exact IH].
Qed.


Lemma get_defineOwn_eq (o : object) (k : string) (v : value) :
  get (defineOwn o k v) k = v.
Proof. unfold get. by rewrite getOwn_defineOwn_eq. Qed.


Lemma defineOwn_defineOwn_eq (o : object) (k : string) (v w : value) :
  defineOwn (defineOwn o k v) k w = defineOwn o k w.
Proof.
  induction o as [|[k' v'] r IH]; simpl.
  - by rewrite String.eqb_refl.
  - destruct (String.eqb k' k) eqn:E; simpl; rewrite E; [done | by rewrite IH].
Qed.



Lemma inherited_proto : inherited "__proto__" = true.
Proof. reflexivity. Qed.

(** An assignment that is no call of the setter of [__proto__]. *)
Lemma set_defineOwn (o : object) (k : string) (v : value) :
  is_Some (getOwn o k) \/ k <> "__proto__"%string ->
  set o k v = Some (defineOwn o k v).
Proof.
  intros H. unfold set. destruct (getOwn o k) eqn:E; [done|].
  destruct H as [[? ?]|H]; [discriminate|].
  destruct (String.eqb k "__proto__") eqn:E'; [|done]. by apply String.eqb_eq in E'.
Qed.

Lemma set_undefined (o : object) (k : string) (v : value) :
  negb (truthy (get o k)) = true -> set o k v = Some (defineOwn o k v).
Proof.
  intros H. apply set_defineOwn. unfold get in H.
  destruct (getOwn o k) eqn:E; [left; by eexists|]. right. intros ->.
  by rewrite inherited_proto in H.
Qed.

End ObjectLemmas.

Section ManagerLemmas.

Lemma foldl_delete_None (l : list string) (m : gmap string Plugin) (k : string) :
  m !! k = None -> foldl (fun m t => delete t m) m l !! k = None.
Proof.
  revert m. induction l as [|a l IH]; intros m Hm; simpl; [done|].
  apply IH. rewrite lookup_delete_None. by right.
Qed.

Lemma foldl_delete_In (l : list string) (m : gmap string Plugin) (k : string) :
  In k l -> foldl (fun m t => delete t m) m l !! k = None.
Proof.
  revert m. induction l as [|a l IH]; intros m Hin; simpl in *; [done|].
  destruct Hin as [->|Hin].
  - apply foldl_delete_None, lookup_delete_eq.
  - by apply IH.
Qed.

Lemma validateLoop_all (data : object) (l : list Plugin) (wss : list (list string))
    (acc : list string) :
  Forall2 (returns data) l wss ->
  Manager.validateLoop l data acc = Ok (acc ++ concat wss).
Proof.
  intros H. revert acc. induction H as [|p w l wss (f & Hf & Hw) _ IH]; intros acc; simpl.
  - by rewrite app_nil_r.
  - rewrite Hf, Hw. simpl. rewrite IH. by rewrite app_assoc.
Qed.

Lemma validateLoop_first_throw (data : object) (l1 l2 : list Plugin) (p : Plugin)
    (wss : list (list string)) (e : exn) (acc : list string) :
  Forall2 (returns data) l1 wss ->
  throws data p e ->
  Manager.validateLoop (l1 ++ p :: l2) data acc
  = Err (Manager.createPluginError (Manager.pluginName p) "VALIDATE_DATA_FAILED" e).
Proof.
  intros H (f & Hf & He). revert acc.
  induction H as [|q w l wss (g & Hg & Hw) _ IH]; intros acc; simpl.
  - by rewrite Hf, He.
  - rewrite Hg, Hw. simpl. apply IH.
Qed.

Lemma validateLoop_Ok_inv (data : object) (l : list Plugin) (acc ws : list string) :
  Manager.validateLoop l data acc = Ok ws ->
  exists wss, Forall2 (returns data) l wss /\ ws = acc ++ concat wss.
Proof.
  revert acc. induction l as [|p l IH]; intros acc; simpl.
  - intros [= <-]. exists []. split; [constructor | by rewrite app_nil_r].
  - destruct (validate p) as [f|] eqn:Hf; simpl; [|discriminate].
    destruct (f data) as [w|e|] eqn:Hw; simpl; [|discriminate..].
    intros H. destruct (IH _ H) as (wss & Hall & ->).
    exists (w :: wss). split.
    + constructor; [by exists f | done].
    + simpl. by rewrite app_assoc.
Qed.

Lemma validateLoop_Err_inv (data : object) (l : list Plugin) (acc : list string) (e : exn) :
  Manager.validateLoop l data acc = Err e ->
  exists p msg, In p l /\ e = PluginError (Manager.pluginName p) "VALIDATE_DATA_FAILED" msg.
Proof.
  revert acc. induction l as [|p l IH]; intros acc; simpl; [discriminate|].
  destruct (Manager.guarded p "VALIDATE_DATA_FAILED" _) as [w|e'|] eqn:Hg; [| |discriminate].
  - intros H. destruct (IH _ H) as (q & msg & Hq & ->). exists q, msg. by split; [right|].
  - intros [= <-]. unfold Manager.guarded in Hg.
    destruct (match validate p with Some f => f data | None => _ end) as [|e0|];
      [discriminate| |discriminate].
    injection Hg as <-. exists p. eexists. split; [by left | reflexivity].
Qed.

Lemma unregister_plugins (pm : PluginManager) (p : Plugin) (o : PluginOptions) :
  plugins pm !! Manager.pluginName p = Some (p, o) ->
  plugins (fst (Manager.unregister pm (Manager.pluginName p)))
  = delete (Manager.pluginName p) (plugins pm).
Proof.
  intros Hreg. unfold Manager.unregister. rewrite Hreg.
  by_categories p.
Qed.

End ManagerLemmas.

(** ** C9 *)

(** C9. For every input whose trimmed form is empty, [parseAuthorDSL] throws
    the [DSLParseError] with message 'Input cannot be empty' and no line
    number; [validateInput] raises it, so neither a [beforeParse] hook nor a
    line is run first, whatever the plugin manager. *)
Theorem C9_empty_input_rejected (input : string) (pluginManager : option PluginManager) :
  trim input = EmptyString ->
  let e := DSLParseError "Input cannot be empty" None None in
  Parser.validateInput input = Err e
  /\ Parser.parseAuthorDSL input pluginManager = Err e
  /\ errorMessage e = "Input cannot be empty"%string.
Proof.
  intros Hempty e.
  assert (Hv : Parser.validateInput input = Err e).
  { unfold Parser.validateInput. by rewrite Hempty. }
  split; [exact Hv|]. split; [|reflexivity].
  unfold Parser.parseAuthorDSL. by rewrite Hv.
Qed.

Lemma C9_witness :
  let pm := fst (Manager.register Manager.create Samples.failingHook Manager.noOptions) in
  let e := DSLParseError "Input cannot be empty" None None in
  Manager.beforeParse pm Samples.blankInput
    = Err (PluginError "failing" "BEFORE_PARSE_FAILED" "Plugin failing error: boom")
  /\ Parser.validateInput Samples.blankInput = Err e
  /\ Parser.parseAuthorDSL Samples.blankInput (Some pm) = Err e
  /\ errorMessage e = "Input cannot be empty"%string.
Proof.
  split; [vm_compute; reflexivity|].
  apply (C9_empty_input_rejected Samples.blankInput). reflexivity.
Defined.

(** ** C10 *)

(** C10. After [unregister] of a registered type plugin [p], the type-handler
    map has no entry for any tag of [p.supportedTypes], whoever was the
    handler of the tag before the call: [processValue] for the tag hands
    the value back as it is, while every plugin registered under another
    name is still registered. *)
Theorem C10_unregister_deletes_every_tag (pm : PluginManager) (p : Plugin)
    (o : PluginOptions) (types : list string) (tag : string) :
  plugins pm !! Manager.pluginName p = Some (p, o) ->
  Manager.isTypePlugin p = true ->
  supportedTypes p = Some types ->
  In tag types ->
  let pm' := fst (Manager.unregister pm (Manager.pluginName p)) in
  typePlugins pm' !! tag = None
  /\ (forall v context, Manager.processValue pm' v (Some tag) context = Ok (VStr v))
  /\ (forall q oq,
        Manager.pluginName q <> Manager.pluginName p ->
        plugins pm !! Manager.pluginName q = Some (q, oq) ->
        plugins pm' !! Manager.pluginName q = Some (q, oq)).
Proof.
  intros Hreg Htype Htypes Hin pm'.
  assert (Hgone : typePlugins pm' !! tag = None).
  { unfold pm', Manager.unregister. rewrite Hreg. rewrite Htype. simpl.
    destruct (Manager.isValidationPlugin p), (Manager.isFormatterPlugin p),
      (Manager.isParserPlugin p); simpl; rewrite Htypes; simpl;
      by apply foldl_delete_In. }
  split; [exact Hgone|]. split.
  - intros v context. unfold Manager.processValue. rewrite Hgone.
    by destruct (String.eqb tag EmptyString).
  - intros q oq Hne Hq. unfold pm'. rewrite (unregister_plugins pm p o Hreg).
    by rewrite lookup_delete_ne.
Qed.

(** [links] handles [url] and [link]; [urls], registered later, has taken
    over [url]. Unregistering [links] leaves [urls] registered and without
    its handler entry. *)
Lemma C10_witness :
  let pm := Samples.twoTypePlugins in
  let pm' := fst (Manager.unregister pm "links") in
  (ident <$> typePlugins pm !! "url") = Some 2%nat
  /\ Manager.isRegistered pm' "urls" = true
  /\ typePlugins pm' !! "url" = None
  /\ (forall v context, Manager.processValue pm' v (Some "url"%string) context = Ok (VStr v))
  /\ (forall q oq,
        Manager.pluginName q <> "links"%string ->
        plugins pm !! Manager.pluginName q = Some (q, oq) ->
        plugins pm' !! Manager.pluginName q = Some (q, oq)).
Proof.
  split; [vm_compute; reflexivity|]. split; [vm_compute; reflexivity|].
  apply (C10_unregister_deletes_every_tag Samples.twoTypePlugins Samples.linksPlugin
           (Manager.defaultOptions Manager.noOptions) ["url"; "link"]%string "url");
    [vm_compute; reflexivity | reflexivity | reflexivity | simpl; auto].
Defined.

(** ** C8 *)

(** C8. [validateData] hands the warnings back as its result: when every
    validator returns, the result is the concatenation of their lists in
    registry order, and a result is never anything else; when a validator
    throws (the earlier ones having returned), the call throws the
    [PluginError] with that plugin's name and the code
    [VALIDATE_DATA_FAILED], and no list is returned. Every failure of the
    call is a [PluginError] with the name of a validator and that code. *)
Theorem C8_validateData (pm : PluginManager) (data : object) :
  (forall wss, Forall2 (returns data) (validationPlugins pm) wss ->
     Manager.validateData pm data = Ok (concat wss))
  /\ (forall ws, Manager.validateData pm data = Ok ws ->
        exists wss, Forall2 (returns data) (validationPlugins pm) wss /\ ws = concat wss)
  /\ (forall l1 p l2 wss e,
        validationPlugins pm = l1 ++ p :: l2 ->
        Forall2 (returns data) l1 wss ->
        throws data p e ->
        Manager.validateData pm data
        = Err (PluginError (Manager.pluginName p) "VALIDATE_DATA_FAILED"
                 (errorMessage (Manager.createPluginError (Manager.pluginName p)
                                  "VALIDATE_DATA_FAILED" e))))
  /\ (forall e, Manager.validateData pm data = Err e ->
        exists p msg,
          In p (validationPlugins pm)
          /\ e = PluginError (Manager.pluginName p) "VALIDATE_DATA_FAILED" msg).
Proof.
  unfold Manager.validateData. split; [|split; [|split]].
  - intros wss H. by rewrite (validateLoop_all data _ wss []).
  - intros ws H. destruct (validateLoop_Ok_inv _ _ _ _ H) as (wss & Hall & ->). by exists wss.
  - intros l1 p l2 wss e -> Hall Hthrow.
    by rewrite (validateLoop_first_throw data l1 l2 p wss e []).
  - intros e. apply validateLoop_Err_inv.
Qed.

Lemma C8_witness :
  Manager.validateData (Samples.registerAll [Samples.warnA; Samples.warnB]) []
    = Ok ["a1"; "a2"; "b1"]%string
  /\ Manager.validateData (Samples.registerAll [Samples.warnA; Samples.throwC; Samples.warnB]) []
    = Err (PluginError "c" "VALIDATE_DATA_FAILED" "Plugin c error: bad document").
Proof.
  split.
  - apply (proj1 (C8_validateData (Samples.registerAll [Samples.warnA; Samples.warnB]) [])
             [["a1"; "a2"]; ["b1"]]%string).
    repeat constructor; eexists; (split; [reflexivity|reflexivity]).
  - apply (proj1 (proj2 (proj2 (C8_validateData
             (Samples.registerAll [Samples.warnA; Samples.throwC; Samples.warnB]) [])))
             [Samples.warnA] Samples.throwC [Samples.warnB] [["a1"; "a2"]]%string
             (PlainError "bad document")).
    + vm_compute; reflexivity.
    + repeat constructor; eexists; (split; [reflexivity|reflexivity]).
    + eexists; (split; [reflexivity|reflexivity]).
Defined.

(** ** Registration *)

Section Registration.

Variables (pm : PluginManager) (p : Plugin) (o : PluginOptions).

Lemma register_plugins :
  plugins (fst (Manager.register pm p o))
  = <[Manager.pluginName p := (p, Manager.defaultOptions o)]> (plugins pm).
Proof.
  unfold Manager.register.
  by_categories p.
Qed.

Lemma register_parserPlugins :
  parserPlugins (fst (Manager.register pm p o))
  = if Manager.isParserPlugin p
    then Manager.sortByPriority (Manager.priorityOf (fst (Manager.register pm p o)))
           (parserPlugins pm ++ [p])
    else parserPlugins pm.
Proof.
  unfold Manager.register.
  by_categories p.
Qed.

Lemma register_formatterPlugins :
  formatterPlugins (fst (Manager.register pm p o))
  = if Manager.isFormatterPlugin p then formatterPlugins pm ++ [p]
    else formatterPlugins pm.
Proof.
  unfold Manager.register.
  by_categories p.
Qed.

End Registration.

Lemma find_app_None {A} (f : A -> bool) (l r : list A) (x : A) :
  List.find f l = None ->
  List.find f (l ++ x :: r) = if f x then Some x else List.find f r.
Proof.
  induction l as [|a l IH]; simpl; [done|].
  destruct (f a); [discriminate | exact IH].
Qed.

(** ** C7 *)

(** C7. [beforeParse] hooks chain in registry order, each on the output of
    the one before: with the parse hooks P1 then P2 registered at equal
    priority, the registry order is P1, P2, [beforeParse] returns
    P2(P1(rawInput)), and that is the text the Parse Engine runs on. *)
Theorem C7_beforeParse_chain (pm : PluginManager) (P1 P2 : Plugin)
    (o1 o2 : PluginOptions) (f1 f2 : string -> result string) (input s1 s2 : string) :
  parserPlugins pm = [] ->
  default 0 (priority o1) = default 0 (priority o2) ->
  beforeParse P1 = Some f1 ->
  beforeParse P2 = Some f2 ->
  f1 input = Ok s1 ->
  f2 s1 = Ok s2 ->
  let pm' := fst (Manager.register (fst (Manager.register pm P1 o1)) P2 o2) in
  parserPlugins pm' = [P1; P2]
  /\ Manager.beforeParse pm' input = Ok s2
  /\ Parser.parseAuthorDSL input (Some pm')
     = (_ ← Parser.validateInput input; Parser.parseEngine s2 (Some pm')).
Proof.
  intros Hnone Hprio Hf1 Hf2 Hs1 Hs2 pm'.
  assert (Hp1 : Manager.isParserPlugin P1 = true).
  { unfold Manager.isParserPlugin. by rewrite Hf1. }
  assert (Hp2 : Manager.isParserPlugin P2 = true).
  { unfold Manager.isParserPlugin. by rewrite Hf2. }
  pose proof (register_plugins pm P1 o1) as Hpl1.
  pose proof (register_plugins (fst (Manager.register pm P1 o1)) P2 o2) as Hpl2.
  fold pm' in Hpl2.
  assert (Hpp1 : parserPlugins (fst (Manager.register pm P1 o1)) = [P1]).
  { rewrite register_parserPlugins, Hp1, Hnone. reflexivity. }
  assert (Hpp2 : parserPlugins pm'
                 = Manager.insertByPriority (Manager.priorityOf pm') P1 [P2]).
  { unfold pm'. rewrite register_parserPlugins, Hp2, Hpp1. reflexivity. }
  assert (Horder : parserPlugins pm' = [P1; P2]).
  { rewrite Hpp2. cbn [Manager.insertByPriority].
    assert (Heq : Manager.priorityOf pm' P2 - Manager.priorityOf pm' P1 = 0).
    { unfold Manager.priorityOf. rewrite Hpl2, Hpl1.
      rewrite lookup_insert_eq.
      destruct (decide (Manager.pluginName P2 = Manager.pluginName P1)) as [E|E].
      - rewrite <- E, lookup_insert_eq. simpl. lia.
      - rewrite lookup_insert_ne, lookup_insert_eq by done. simpl. lia. }
    by rewrite Heq. }
  assert (Hbefore : Manager.beforeParse pm' input = Ok s2).
  { unfold Manager.beforeParse. rewrite Horder. simpl.
    rewrite Hf1, Hs1. simpl. by rewrite Hf2, Hs2. }
  split; [exact Horder|]. split; [exact Hbefore|].
  unfold Parser.parseAuthorDSL. by rewrite Hbefore.
Qed.

(** P1 puts the text in upper case, P2 adds a line: the engine parses
    P2(P1(rawInput)). *)
Lemma C7_witness :
  let pm' := fst (Manager.register
                    (fst (Manager.register Manager.create Samples.upperHook Manager.noOptions))
                    Samples.appendHook Manager.noOptions) in
  (parserPlugins pm' = [Samples.upperHook; Samples.appendHook]
   /\ Manager.beforeParse pm' "a: b" = Ok ("A: B" +:+ Samples.newline +:+ "extra: yes")
   /\ Parser.parseAuthorDSL "a: b" (Some pm')
      = (_ ← Parser.validateInput "a: b";
         Parser.parseEngine ("A: B" +:+ Samples.newline +:+ "extra: yes") (Some pm')))
  /\ Parser.parseAuthorDSL "a: b" (Some pm')
     = Ok [("A", VStr "B"); ("extra", VStr "yes")]%string.
Proof.
  split; [|vm_compute; reflexivity].
  apply (C7_beforeParse_chain Manager.create Samples.upperHook Samples.appendHook
           Manager.noOptions Manager.noOptions
           (fun input => Ok (Samples.toUpperCase input))
           (fun s => Ok (s +:+ Samples.newline +:+ "extra: yes"))
           "a: b" "A: B"); reflexivity.
Defined.

(** ** C5 *)

(** C5, as the code has it. The formatter category is a list in registration
    order, not a map keyed by tag: registering a second formatter for a tag
    leaves the first in the list, and [formatData] for that tag invokes the
    earliest registered plugin that declares the tag. *)
Theorem C5_first_formatter_is_invoked (pm : PluginManager) (P1 P2 : Plugin)
    (o1 o2 : PluginOptions) (f1 : object -> value -> result string)
    (tags1 : list string) (tag : string) (data : object) (options : value) :
  List.find (Manager.supports tag) (formatterPlugins pm) = None ->
  format P1 = Some f1 ->
  supportedFormats P1 = Some tags1 ->
  In tag tags1 ->
  Manager.isFormatterPlugin P2 = true ->
  let pm' := fst (Manager.register (fst (Manager.register pm P1 o1)) P2 o2) in
  formatterPlugins pm' = formatterPlugins pm ++ [P1; P2]
  /\ Manager.formatData pm' data tag options
     = Manager.guarded P1 "FORMAT_FAILED" (f1 data options).
Proof.
  intros Hnone Hf1 Ht1 Hin Hfmt2 pm'.
  assert (Hfmt1 : Manager.isFormatterPlugin P1 = true).
  { unfold Manager.isFormatterPlugin. by rewrite Hf1, Ht1. }
  pose proof (register_formatterPlugins pm P1 o1) as Hfp1.
  pose proof (register_formatterPlugins (fst (Manager.register pm P1 o1)) P2 o2) as Hfp2.
  fold pm' in Hfp2. rewrite Hfmt1 in Hfp1. rewrite Hfmt2, Hfp1 in Hfp2.
  assert (Hlist : formatterPlugins pm' = formatterPlugins pm ++ [P1; P2]).
  { rewrite Hfp2. by rewrite <- app_assoc. }
  split; [exact Hlist|].
  assert (Hsup : Manager.supports tag P1 = true).
  { unfold Manager.supports. rewrite Ht1. simpl. apply existsb_exists.
    exists tag. split; [exact Hin | apply String.eqb_refl]. }
  unfold Manager.formatData. rewrite Hlist.
  rewrite (find_app_None _ _ _ _ Hnone), Hsup. by rewrite Hf1.
Qed.

Lemma C5_witness :
  let pm' := fst (Manager.register
                    (fst (Manager.register Manager.create Samples.jsonOne Manager.noOptions))
                    Samples.jsonTwo Manager.noOptions) in
  formatterPlugins pm' = [Samples.jsonOne; Samples.jsonTwo]
  /\ Manager.formatData pm' [] "json" VUndefined = Ok "one"%string.
Proof.
  apply (C5_first_formatter_is_invoked Manager.create Samples.jsonOne Samples.jsonTwo
           Manager.noOptions Manager.noOptions (fun _ _ => Ok "one"%string)
           ["json"]%string "json" [] VUndefined);
    [reflexivity | reflexivity | reflexivity | simpl; auto | reflexivity].
Defined.

(** Two formatters declare [json]; the call for [json] returns the output
    of the one registered first, and both remain in the list. *)
Lemma C5_counterexample :
  let pm' := Samples.registerAll [Samples.jsonOne; Samples.jsonTwo] in
  map ident (formatterPlugins pm') = [21; 22]%nat
  /\ Manager.supports "json" Samples.jsonTwo = true
  /\ format Samples.jsonTwo = Some (fun _ _ => Ok "two"%string)
  /\ Manager.formatData pm' [] "json" VUndefined = Ok "one"%string
  /\ Manager.formatData pm' [] "json" VUndefined <> Ok "two"%string.
Proof.
  split; [vm_compute; reflexivity|]. split; [vm_compute; reflexivity|].
  split; [vm_compute; reflexivity|]. split; [vm_compute; reflexivity|].
  vm_compute. discriminate.
Qed.

(** ** The frame stack and the name stack *)

Section Stacks.

Lemma length_setTop {A} (l : list A) (x y : A) :
  last l = Some x -> length (removelast l ++ [y]) = length l.
Proof.
  intros H. destruct l as [|a l] using rev_ind; [discriminate|].
  rewrite removelast_last. by rewrite !length_app.
Qed.

Lemma length_removelast_S {A} (l : list A) (x : A) :
  last l = Some x -> length l = S (length (removelast l)).
Proof.
  intros H. destruct l as [|a l] using rev_ind; [discriminate|].
  rewrite removelast_last, length_app. simpl. lia.
Qed.

Lemma assignTop_Ok (st st' : Parser.State) (k : string) (v : value) :
  Parser.assignTop st k v = Ok st' ->
  length (Parser.stack st') = length (Parser.stack st)
  /\ Parser.blockNames st' = Parser.blockNames st
  /\ Parser.inMultiline st' = Parser.inMultiline st.
Proof.
  unfold Parser.assignTop.
  destruct (last (Parser.stack st)) as [current|] eqn:E; [|discriminate].
  destruct (Parser.assignValue current k v) as [current'|]; [|discriminate].
  intros [= <-]. simpl. split; [|done].
  unfold Parser.setTop. by apply length_setTop with current.
Qed.

Lemma handleBlockStart_lengths (line : string) (n : nat) (stack stack' : list object)
    (names names' : list string) :
  Parser.handleBlockStart line n stack names = Ok (stack', names') ->
  length stack' = S (length stack) /\ length names' = S (length names).
Proof.
  unfold Parser.handleBlockStart.
  destruct (String.eqb _ _); [discriminate|].
  destruct (last stack) as [current|] eqn:E; [|discriminate].
  destruct (covered _) as [current'| |]; [|discriminate..]. simpl.
  destruct (get _ _) as [| | | | | |fields|]; try discriminate.
  - intros [= <- <-]. rewrite !length_app. simpl. unfold Parser.setTop.
    rewrite (length_setTop _ current) by done. lia.
  - by destruct (get fields "push").
Qed.

Lemma length_popBlock (stack : list object) (name : string) (n : nat) :
  length stack = S (S n) -> length (Parser.popBlock stack name) = S n.
Proof.
  intros Hlen. unfold Parser.popBlock.
  destruct (last stack) as [block|] eqn:E.
  - pose proof (length_removelast_S _ _ E) as H1.
    destruct (last (removelast stack)) as [parent|] eqn:E'.
    + unfold Parser.setTop. rewrite (length_setTop _ parent) by done. lia.
    + destruct (removelast stack); [simpl in H1; lia|].
      by apply last_None in E'.
  - apply last_None in E. subst. discriminate.
Qed.

Lemma handleBlockEnd_lengths (line : string) (n : nat) (stack stack' : list object)
    (names names' : list string) :
  length stack = S (length names) ->
  Parser.handleBlockEnd line n stack names = Ok (stack', names') ->
  length stack = S (length stack') /\ length names = S (length names').
Proof.
  intros Hinv. unfold Parser.handleBlockEnd.
  destruct (String.eqb _ _); [discriminate|].
  destruct (last names) as [lastName|] eqn:E; [|discriminate].
  destruct (negb _); [discriminate|].
  intros [= <- <-].
  pose proof (length_removelast_S _ _ E) as H1.
  rewrite (length_popBlock stack lastName (length (removelast names))) by lia.
  lia.
Qed.

Lemma processLine_balanced (pm : option PluginManager) (st st' : Parser.State)
    (n : nat) (rawLine : string) :
  balanced st -> Parser.processLine pm st n rawLine = Ok st' -> balanced st'.
Proof.
  unfold balanced, Parser.processLine. intros Hinv.
  destruct (Parser.inMultiline st).
  { destruct (Parser.handleMultilineContent _ _) as [[] buffer].
    - destruct (Parser.assignTop _ _ _) as [st1| |] eqn:E; [|discriminate..].
      simpl. intros [= <-]. simpl.
      destruct (assignTop_Ok _ _ _ _ E) as (-> & -> & _). exact Hinv.
    - intros [= <-]. exact Hinv. }
  destruct (_ || _); [by intros [= <-]|].
  destruct (test "begin" _).
  { destruct (match pm with Some _ => _ | None => _ end); [|discriminate..]. simpl.
    destruct (Parser.handleBlockStart _ _ _ _) as [[stack' names]| |] eqn:E; [|discriminate..].
    simpl. intros [= <-]. simpl.
    destruct (handleBlockStart_lengths _ _ _ _ _ _ E) as [-> ->]. by rewrite Hinv. }
  destruct (test "end" _).
  { destruct (match pm with Some _ => _ | None => _ end); [|discriminate..]. simpl.
    destruct (Parser.handleBlockEnd _ _ _ _) as [[stack' names]| |] eqn:E; [|discriminate..].
    simpl. intros [= <-]. simpl.
    destruct (handleBlockEnd_lengths _ _ _ _ _ _ Hinv E) as [H1 H2]. lia. }
  destruct (Parser.parseKeyValue _ _) as [[[key val] type]| |]; [|discriminate..]. simpl.
  destruct (startsWith val tripleQuote); [by intros [= <-]|].
  unfold Parser.assignKeyValue.
  assert (Hassign : forall k v, Parser.assignTop st k v = Ok st' ->
            length (Parser.stack st') = S (length (Parser.blockNames st'))).
  { intros k v E. destruct (assignTop_Ok _ _ _ _ E) as (-> & -> & _). exact Hinv. }
  destruct pm as [pm|].
  - destruct (match type with Some _ => _ | None => _ end); [|discriminate..]. simpl.
    destruct (Manager.onKeyValue _ _ _ _); [|discriminate..]. simpl. apply Hassign.
  - destruct type; apply Hassign.
Qed.

Lemma processLines_balanced (pm : option PluginManager) (lines : list string) :
  forall (n : nat) (st st' : Parser.State),
    balanced st -> Parser.processLines pm lines n st = Ok st' -> balanced st'.
Proof.
  induction lines as [|rawLine lines IH]; intros n st st' Hinv; simpl.
  - by intros [= <-].
  - destruct (Parser.processLine pm st n rawLine) as [st1| |] eqn:E; [|discriminate..].
    simpl. apply IH. by apply processLine_balanced with pm st n rawLine.
Qed.

Lemma finish_Ok (pm : option PluginManager) (st : Parser.State) (doc : object) :
  Parser.finish pm st = Ok doc ->
  length (Parser.stack st) = 1%nat /\ Parser.inMultiline st = false.
Proof.
  unfold Parser.finish. destruct (Parser.stack st) as [|r [|]]; try discriminate.
  destruct (Parser.inMultiline st); [discriminate|done].
Qed.

Lemma finish_unclosed (pm : option PluginManager) (st : Parser.State) :
  length (Parser.stack st) <> 1%nat ->
  Parser.finish pm st
  = Err (DSLParseError ("Unclosed block(s): " +:+ join (Parser.blockNames st) ", ") None None).
Proof.
  unfold Parser.finish. destruct (Parser.stack st) as [|r [|]]; simpl; try done.
Qed.

End Stacks.

(** ** C4 *)

(** C4, as the code has it. The name stack starts empty and the frame
    stack starts with the root frame, so after every line the frame stack is
    exactly one deeper than the open-block-name stack, and its depth is at
    least 1. A parse that succeeds has ended with the frame stack back at
    depth 1, the name stack empty and no multiline value open; with a
    deeper frame stack at end of input it fails with the unclosed-blocks
    error. *)
Theorem C4_stack_one_deeper_than_names (pm : option PluginManager) :
  (forall lines st,
     Parser.processLines pm lines 1 Parser.initial = Ok st ->
     length (Parser.stack st) = S (length (Parser.blockNames st))
     /\ (1 <= length (Parser.stack st))%nat)
  /\ (forall input doc,
        Parser.parseAuthorDSL input pm = Ok doc ->
        exists processedInput st,
          Parser.processLines pm (splitLines processedInput) 1 Parser.initial = Ok st
          /\ length (Parser.stack st) = 1%nat
          /\ length (Parser.blockNames st) = 0%nat
          /\ Parser.inMultiline st = false)
  /\ (forall processedInput st,
        Parser.processLines pm (splitLines processedInput) 1 Parser.initial = Ok st ->
        length (Parser.stack st) <> 1%nat ->
        Parser.parseEngine processedInput pm
        = Err (DSLParseError ("Unclosed block(s): " +:+ join (Parser.blockNames st) ", ")
                 None None)).
Proof.
  assert (Hb : forall lines st,
            Parser.processLines pm lines 1 Parser.initial = Ok st -> balanced st).
  { intros lines st Hrun.
    apply (processLines_balanced pm lines 1 Parser.initial); [reflexivity | exact Hrun]. }
  split; [|split].
  - intros lines st Hrun. pose proof (Hb _ _ Hrun) as H. unfold balanced in H. lia.
  - intros input doc. unfold Parser.parseAuthorDSL.
    destruct (Parser.validateInput input); [|discriminate..]. simpl.
    destruct (match pm with Some _ => _ | None => _ end) as [processedInput| |];
      [|discriminate..]. simpl.
    unfold Parser.parseEngine.
    destruct (Parser.processLines pm _ 1 Parser.initial) as [st| |] eqn:Hrun; [|discriminate..].
    simpl. intros Hdoc. exists processedInput, st.
    destruct (finish_Ok _ _ _ Hdoc) as [H1 H2].
    pose proof (Hb _ _ Hrun) as H. unfold balanced in H.
    repeat split; [done | done | lia | done].
  - intros processedInput st Hrun Hdeep. unfold Parser.parseEngine. rewrite Hrun. simpl.
    by apply finish_unclosed.
Qed.

(** Two blocks left open: depths 3 and 2 after the third line, and the
    parse fails naming both blocks. *)
Lemma C4_witness :
  let st := {| Parser.stack := [[("P", VArr [VObj []])]; [("Q", VArr [VObj []])]; [("X", VStr "1")]]%string;
               Parser.blockNames := ["P"; "Q"]%string;
               Parser.inMultiline := false; Parser.multilineKey := None;
               Parser.multilineBuffer := [] |} in
  Parser.processLines None (splitLines Samples.twoOpenBlocks) 1 Parser.initial = Ok st
  /\ (length (Parser.stack st) = S (length (Parser.blockNames st))
      /\ (1 <= length (Parser.stack st))%nat)
  /\ Parser.parseEngine Samples.twoOpenBlocks None
     = Err (DSLParseError ("Unclosed block(s): " +:+ join (Parser.blockNames st) ", ")
              None None).
Proof.
  split; [vm_compute; reflexivity|]. split.
  - apply (proj1 (C4_stack_one_deeper_than_names None) (splitLines Samples.twoOpenBlocks)).
    vm_compute; reflexivity.
  - apply (proj2 (proj2 (C4_stack_one_deeper_than_names None)) Samples.twoOpenBlocks).
    + vm_compute; reflexivity.
    + simpl. lia.
Defined.

(** At the start of every parse, and again at the end of a successful one,
    the frame stack has depth 1 and the name stack depth 0; with one block
    open they have depths 2 and 1. *)
Lemma C4_counterexample :
  length (Parser.stack Parser.initial) = 1%nat
  /\ length (Parser.blockNames Parser.initial) = 0%nat
  /\ length (Parser.stack Parser.initial) <> length (Parser.blockNames Parser.initial)
  /\ Parser.processLines None ["Begin P"]%string 1 Parser.initial
     = Ok {| Parser.stack := [[("P", VArr [VObj []])]; []]%string;
             Parser.blockNames := ["P"]%string;
             Parser.inMultiline := false; Parser.multilineKey := None;
             Parser.multilineBuffer := [] |}
  /\ Parser.processLines None ["A: 1"]%string 1 Parser.initial
     = Ok {| Parser.stack := [[("A", VStr "1")]]%string;
             Parser.blockNames := [];
             Parser.inMultiline := false; Parser.multilineKey := None;
             Parser.multilineBuffer := [] |}
  /\ Parser.parseAuthorDSL "A: 1" None = Ok [("A", VStr "1")]%string.
Proof.
  split; [reflexivity|]. split; [reflexivity|]. split; [simpl; lia|].
  split; [reflexivity|]. split; reflexivity.
Qed.

(** ** C6 *)

(** C6. The line that closes a multiline value assigns to the pending key
    the buffered lines and the text before the marker, joined by newlines
    and trimmed, as a plain string. The four lines [Bio@multiline:] with the
    opening marker, [line1], [line2] and the closing marker give Bio the
    string line1, newline, line2, with
    or without a plugin manager. *)
Theorem C6_multiline_value :
  Parser.parseAuthorDSL Samples.bioInput None
  = Ok [("Bio"%string, VStr ("line1" +:+ Samples.newline +:+ "line2"))]
  /\ Parser.parseAuthorDSL Samples.bioInput (Some Manager.create)
     = Ok [("Bio"%string, VStr ("line1" +:+ Samples.newline +:+ "line2"))]
  /\ (forall pm st n line key,
        Parser.inMultiline st = true ->
        Parser.multilineKey st = Some key ->
        endsWith (trim line) tripleQuote = true ->
        Parser.processLine pm st n line
        = (st' ← Parser.assignTop st key
                   (VStr (trim (join (Parser.multilineBuffer st ++ [slice (trim line) 0 (-3)])
                                  Samples.newline)));
           Ok {| Parser.stack := Parser.stack st';
                 Parser.blockNames := Parser.blockNames st';
                 Parser.inMultiline := false; Parser.multilineKey := None;
                 Parser.multilineBuffer := [] |}))
  /\ (forall pm st n line,
        Parser.inMultiline st = true ->
        endsWith (trim line) tripleQuote = false ->
        Parser.processLine pm st n line
        = Ok {| Parser.stack := Parser.stack st;
                Parser.blockNames := Parser.blockNames st;
                Parser.inMultiline := true; Parser.multilineKey := Parser.multilineKey st;
                Parser.multilineBuffer := Parser.multilineBuffer st ++ [line] |}).
Proof.
  split; [vm_compute; reflexivity|]. split; [vm_compute; reflexivity|]. split.
  - intros pm st n line key Hin Hkey Hend.
    unfold Parser.processLine, Parser.handleMultilineContent.
    by rewrite Hin, Hend, Hkey.
  - intros pm st n line Hin Hend.
    unfold Parser.processLine, Parser.handleMultilineContent.
    by rewrite Hin, Hend.
Qed.

(** The state after the opening line, [line1] and [line2], and the line
    that closes the value. *)
Lemma C6_witness :
  let st := {| Parser.stack := [[]]; Parser.blockNames := [];
               Parser.inMultiline := true; Parser.multilineKey := Some "Bio"%string;
               Parser.multilineBuffer := ["line1"; "line2"]%string |} in
  Parser.processLines None (splitLines Samples.bioInput) 1 Parser.initial
  = Parser.processLine None st 4 tripleQuote
  /\ Parser.processLine None st 4 tripleQuote
     = (st' ← Parser.assignTop st "Bio"
                (VStr (trim (join (Parser.multilineBuffer st ++ [slice (trim tripleQuote) 0 (-3)])
                               Samples.newline)));
        Ok {| Parser.stack := Parser.stack st';
              Parser.blockNames := Parser.blockNames st';
              Parser.inMultiline := false; Parser.multilineKey := None;
              Parser.multilineBuffer := [] |}).
Proof.
  split; [vm_compute; reflexivity|].
  apply (proj1 (proj2 (proj2 C6_multiline_value))); reflexivity.
Defined.

(** ** C2 *)

Section Collision.








End Collision.




(** ** C1 *)

(** C1, on both branches. For a typed one-line statement and no plugin
    manager the key gets the pair of the type and the processed value. With
    a plugin manager that has no handler for the type, what goes on to the
    [onKeyValue] hooks and into the frame is the raw right-hand side as a
    string. At the input [Key@custom:] followed by the quoted text [a, b],
    with a manager that has no plugin at all, the key gets that text with
    its quotes: not a pair, and neither unquoted nor split. *)
Theorem C1_typed_key_without_handler :
  (forall st n rawLine key value t,
     Parser.assignKeyValue None st n rawLine key value (Some t)
     = Parser.assignTop st key
         (VObj [("type"%string, VStr t); ("value"%string, Parser.processValue value)]))
  /\ (forall pm st n rawLine key value t,
        typePlugins pm !! t = None ->
        Parser.assignKeyValue (Some pm) st n rawLine key value (Some t)
        = (pluginResult ← Manager.onKeyValue pm key (VStr value)
                             (Parser.keyValueContext st n rawLine key value (Some t)
                                (Parser.processValue value));
           Parser.assignTop st (fst pluginResult) (snd pluginResult)))
  /\ Parser.processValue (Samples.quote +:+ "a, b" +:+ Samples.quote)
     = VArr [VStr "a"; VStr "b"]
  /\ Parser.parseAuthorDSL Samples.typedInput None
     = Ok [("Key"%string,
            VObj [("type"%string, VStr "custom");
                  ("value"%string, VArr [VStr "a"; VStr "b"])])]
  /\ typePlugins Manager.create !! "custom"%string = None
  /\ Parser.parseAuthorDSL Samples.typedInput (Some Manager.create)
     = Ok [("Key"%string, VStr (Samples.quote +:+ "a, b" +:+ Samples.quote))].
Proof.
  split; [reflexivity|]. split.
  { intros pm st n rawLine key value t Hnone.
    unfold Parser.assignKeyValue, Manager.processValue. rewrite Hnone.
    by destruct (String.eqb t EmptyString). }
  repeat split; vm_compute; reflexivity.
Qed.

(** ** C3 *)

(** C3 at a manager whose one parse hook marks every key it sees and
    replaces the value. The one-line scalar [Bio: hello] goes through the
    hook. The same value written as a multiline value does not: while a
    multiline value is open a line is handled the same with and without a
    plugin manager, and the completed value is assigned as it is. *)
Theorem C3_multiline_bypasses_onKeyValue :
  let pm := Samples.registerAll [Samples.stampHook] in
  Parser.parseAuthorDSL "Bio: hello" (Some pm) = Ok [("Bio!"%string, VStr "seen")]
  /\ Parser.parseAuthorDSL Samples.helloMultiline (Some pm) = Ok [("Bio"%string, VStr "hello")]
  /\ (forall pm' st n line,
        Parser.inMultiline st = true ->
        Parser.processLine (Some pm') st n line = Parser.processLine None st n line).
Proof.
  split; [vm_compute; reflexivity|]. split; [vm_compute; reflexivity|].
  intros pm' st n line Hin. unfold Parser.processLine. by rewrite Hin.
Qed.

(** * Further properties of the parser and of the manager *)

(** ** Strings as lists of code units *)

Local Abbreviation chars := list_ascii_of_string.

Section StringLemmas.

Lemma chars_inj (a b : string) : chars a = chars b -> a = b.
Proof.
  intros H. rewrite <- (string_of_list_ascii_of_string a),
    <- (string_of_list_ascii_of_string b). by rewrite H.
Qed.

Lemma chars_append (a b : string) : chars (a +:+ b) = chars a ++ chars b.
Proof. induction a as [|c a IH]; simpl; [done | by rewrite IH]. Qed.

Lemma chars_nil (s : string) : chars s = [] -> s = EmptyString.
Proof. by destruct s. Qed.

Lemma chars_srev_app (s acc : string) :
  chars (srev_app s acc) = rev (chars s) ++ chars acc.
Proof.
  revert acc. induction s as [|c s IH]; intros acc; simpl; [done|].
  rewrite IH. simpl. by rewrite <- app_assoc.
Qed.

Lemma chars_srev (s : string) : chars (srev s) = rev (chars s).
Proof. unfold srev. rewrite chars_srev_app. simpl. by rewrite app_nil_r. Qed.

Lemma srev_involutive (s : string) : srev (srev s) = s.
Proof. apply chars_inj. by rewrite !chars_srev, rev_involutive. Qed.

Lemma chars_trimStart (s : string) : chars (trimStart s) = dropWS (chars s).
Proof. induction s as [|c s IH]; simpl; [done|]. by destruct (isWhiteSpace c). Qed.

Lemma chars_trimEnd (s : string) : chars (trimEnd s) = rev (dropWS (rev (chars s))).
Proof. unfold trimEnd. by rewrite chars_srev, chars_trimStart, chars_srev. Qed.

Lemma chars_trim (s : string) :
  chars (trim s) = rev (dropWS (rev (dropWS (chars s)))).
Proof. unfold trim. by rewrite chars_trimEnd, chars_trimStart. Qed.

Lemma dropWS_split (l : list ascii) :
  exists p, l = p ++ dropWS l /\ forallb isWhiteSpace p = true.
Proof.
  induction l as [|c l (p & Hp & Hws)]; simpl.
  - by exists [].
  - destruct (isWhiteSpace c) eqn:E.
    + exists (c :: p). simpl. rewrite E, Hws. split; [by rewrite <- Hp | done].
    + by exists [].
Qed.

Lemma dropWS_head (l : list ascii) (c : ascii) (r : list ascii) :
  dropWS l = c :: r -> isWhiteSpace c = false.
Proof.
  induction l as [|d l IH]; simpl; [discriminate|].
  destruct (isWhiteSpace d) eqn:E; [exact IH|]. by intros [= <- <-].
Qed.

Lemma dropWS_fixed (l : list ascii) (c : ascii) (r : list ascii) :
  l = c :: r -> isWhiteSpace c = false -> dropWS l = l.
Proof. intros -> H. simpl. by rewrite H. Qed.

Lemma dropWS_idem (l : list ascii) : dropWS (dropWS l) = dropWS l.
Proof.
  destruct (dropWS l) as [|c r] eqn:E; [done|].
  apply (dropWS_fixed _ c r); [done | by apply (dropWS_head l c r)].
Qed.

Lemma dropWS_In (l : list ascii) (c : ascii) : In c (dropWS l) -> In c l.
Proof.
  destruct (dropWS_split l) as (p & Hp & _). intros H. rewrite Hp.
  apply in_or_app. by right.
Qed.

Lemma dropWS_app (x y : list ascii) :
  dropWS (x ++ y) = if forallb isWhiteSpace x then dropWS y else dropWS x ++ y.
Proof.
  induction x as [|c x IH]; simpl; [done|].
  destruct (isWhiteSpace c); simpl; [exact IH | done].
Qed.

Lemma dropWSEnd_snoc (l : list ascii) (c : ascii) :
  isWhiteSpace c = false -> dropWSEnd (l ++ [c]) = l ++ [c].
Proof.
  intros H. unfold dropWSEnd. rewrite rev_app_distr. simpl. rewrite H.
  simpl. by rewrite rev_involutive.
Qed.

Lemma dropWSEnd_last (l r : list ascii) (c : ascii) :
  dropWSEnd l = r ++ [c] -> isWhiteSpace c = false.
Proof.
  unfold dropWSEnd. intros H.
  assert (H' : dropWS (rev l) = c :: rev r).
  { rewrite <- (rev_involutive (dropWS (rev l))), H, rev_app_distr. done. }
  by apply (dropWS_head _ _ _ H').
Qed.

Lemma dropWSEnd_In (l : list ascii) (c : ascii) : In c (dropWSEnd l) -> In c l.
Proof.
  unfold dropWSEnd. intros H. apply in_rev in H. apply dropWS_In in H.
  by apply in_rev in H.
Qed.

Lemma dropWSEnd_prefix (l : list ascii) :
  exists q, l = dropWSEnd l ++ q /\ forallb isWhiteSpace q = true.
Proof.
  unfold dropWSEnd. destruct (dropWS_split (rev l)) as (p & Hp & Hws).
  exists (rev p). split.
  - rewrite <- rev_app_distr, <- Hp. by rewrite rev_involutive.
  - rewrite forallb_forall in *. intros x Hx. apply Hws. by apply in_rev in Hx.
Qed.

(** Dropping at the end leaves a first code unit that is not white space
    in place. *)
Lemma dropWSEnd_cons (c : ascii) (r : list ascii) :
  isWhiteSpace c = false -> exists r', dropWSEnd (c :: r) = c :: r'.
Proof.
  intros H. destruct (dropWSEnd_prefix (c :: r)) as (q & Hq & Hws).
  destruct (dropWSEnd (c :: r)) as [|d r'] eqn:E.
  - simpl in Hq. subst q. simpl in Hws. by rewrite H in Hws.
  - injection Hq as <- _. by exists r'.
Qed.

Lemma trim_In (s : string) (c : ascii) : In c (chars (trim s)) -> In c (chars s).
Proof.
  rewrite chars_trim. intros H. apply (dropWSEnd_In (dropWS (chars s))) in H.
  by apply dropWS_In.
Qed.

Lemma trim_idem (s : string) : trim (trim s) = trim s.
Proof.
  apply chars_inj. rewrite (chars_trim (trim s)), chars_trim.
  fold (dropWSEnd (dropWS (chars s))).
  destruct (dropWSEnd (dropWS (chars s))) as [|c r] eqn:E; [done|].
  assert (Hc : isWhiteSpace c = false).
  { destruct (dropWS (chars s)) as [|d r0] eqn:E0; [discriminate|].
    pose proof (dropWS_head _ _ _ E0) as Hd.
    destruct (dropWSEnd_cons d r0 Hd) as (r' & Hr'). rewrite Hr' in E. by injection E as <- _. }
  rewrite (dropWS_fixed (c :: r) c r) by done.
  fold (dropWSEnd (c :: r)). rewrite <- E.
  unfold dropWSEnd at 1 2. by rewrite rev_involutive, dropWS_idem.
Qed.

(** A non-empty trimmed string begins and ends with a code unit that is
    not white space. *)
Lemma trim_first (s : string) (c : ascii) (r : string) :
  trim s = String c r -> isWhiteSpace c = false.
Proof.
  intros H. assert (H' : chars (trim s) = c :: chars r) by by rewrite H.
  rewrite chars_trim in H'. fold (dropWSEnd (dropWS (chars s))) in H'.
  destruct (dropWS (chars s)) as [|d r0] eqn:E0; [discriminate|].
  pose proof (dropWS_head _ _ _ E0) as Hd.
  destruct (dropWSEnd_cons d r0 Hd) as (r' & Hr'). rewrite Hr' in H'. by injection H' as <- _.
Qed.

Lemma trim_last (s : string) (l : list ascii) (c : ascii) :
  chars (trim s) = l ++ [c] -> isWhiteSpace c = false.
Proof. rewrite chars_trim. apply dropWSEnd_last. Qed.

Lemma trimEnd_fixed (s : string) (l : list ascii) (c : ascii) :
  chars s = l ++ [c] -> isWhiteSpace c = false -> trimEnd s = s.
Proof.
  intros Hs Hc. apply chars_inj. rewrite chars_trimEnd, Hs.
  by apply dropWSEnd_snoc.
Qed.

(** [indexOf] and [includes] against membership. *)
Lemma indexOf_ge (s : string) (c : ascii) : -1 <= indexOf s c.
Proof.
  induction s as [|d s IH]; simpl; [lia|].
  destruct (Ascii.eqb d c); [lia|]. destruct (indexOf s c =? -1) eqn:E; lia.
Qed.

Lemma indexOf_absent (s : string) (c : ascii) :
  indexOf s c = -1 <-> ~ In c (chars s).
Proof.
  induction s as [|d s IH]; simpl; [split; [tauto | reflexivity]|].
  destruct (Ascii.eqb d c) eqn:E.
  - apply Ascii.eqb_eq in E. subst. split; [lia | intros H; destruct H; by left].
  - apply Ascii.eqb_neq in E. pose proof (indexOf_ge s c).
    destruct (indexOf s c =? -1) eqn:E'.
    + apply Z.eqb_eq in E'. split; [|done]. intros _ [H'|H']; [done | by apply IH].
    + apply Z.eqb_neq in E'. split; [lia|]. intros H'. exfalso. apply E', IH. tauto.
Qed.

Lemma includes_false (s : string) (c : ascii) :
  includes s c = false <-> ~ In c (chars s).
Proof.
  unfold includes. rewrite negb_false_iff, Z.eqb_eq. apply indexOf_absent.
Qed.

Lemma includes_true (s : string) (c : ascii) :
  includes s c = true <-> In c (chars s).
Proof.
  destruct (includes s c) eqn:E.
  - split; [|done]. intros _. destruct (in_dec ascii_dec c (chars s)) as [H|H]; [done|].
    apply includes_false in H. congruence.
  - apply includes_false in E. split; [discriminate | done].
Qed.

Lemma indexOf_append (k r : string) (c : ascii) :
  indexOf k c = -1 ->
  indexOf (k +:+ String c r) c = Z.of_nat (String.length k).
Proof.
  induction k as [|d k IH]; simpl.
  - intros _. by rewrite Ascii.eqb_refl.
  - destruct (Ascii.eqb d c); [discriminate|].
    destruct (indexOf k c =? -1) eqn:E;
      [|intros H; pose proof (indexOf_ge k c); apply Z.eqb_neq in E; lia].
    intros _. apply Z.eqb_eq in E. rewrite (IH E).
    destruct (Z.of_nat (String.length k) =? -1) eqn:E'; [apply Z.eqb_eq in E'; lia | lia].
Qed.

Lemma substring_prefix (k r : string) :
  substring 0 (String.length k) (k +:+ r) = k.
Proof.
  induction k as [|d k IH]; simpl; [by destruct r | by rewrite IH].
Qed.

Lemma substring_all (r : string) : substring 0 (String.length r) r = r.
Proof. induction r as [|e r IH]; simpl; [done | by rewrite IH]. Qed.

Lemma substring_suffix (k r : string) :
  substring (String.length k) (String.length r) (k +:+ r) = r.
Proof. induction k as [|d k IH]; simpl; [apply substring_all | exact IH]. Qed.

Lemma length_append (a b : string) :
  String.length (a +:+ b) = (String.length a + String.length b)%nat.
Proof. induction a as [|c a IH]; simpl; [done | by rewrite IH]. Qed.

Lemma relIndex_within (len i : Z) : 0 <= i <= len -> relIndex len i = i.
Proof.
  intros H. unfold relIndex. destruct (i <? 0) eqn:E; [apply Z.ltb_lt in E; lia | lia].
Qed.

Lemma slice_prefix (k r : string) :
  slice (k +:+ r) 0 (Z.of_nat (String.length k)) = k.
Proof.
  unfold slice. rewrite !relIndex_within by (rewrite length_append; lia).
  rewrite Z.sub_0_r, Nat2Z.id. apply substring_prefix.
Qed.

Lemma sliceFrom_suffix (k r : string) (c : ascii) :
  sliceFrom (k +:+ String c r) (Z.of_nat (String.length k) + 1) = r.
Proof.
  unfold sliceFrom, slice.
  rewrite !relIndex_within by (rewrite length_append; simpl; lia).
  rewrite length_append. simpl String.length.
  replace (Z.to_nat (Z.of_nat (String.length k) + 1))
    with (String.length (k +:+ String c EmptyString))
    by (rewrite length_append; simpl; lia).
  replace (Z.to_nat _) with (String.length r) by lia.
  replace (k +:+ String c r) with ((k +:+ String c EmptyString) +:+ r).
  - apply substring_suffix.
  - apply chars_inj. rewrite !chars_append. simpl. by rewrite <- app_assoc.
Qed.

Lemma dropWS_all (x : list ascii) : forallb isWhiteSpace x = true -> dropWS x = [].
Proof.
  induction x as [|c x IH]; simpl; [done|].
  destruct (isWhiteSpace c); [exact IH | discriminate].
Qed.

Lemma dropWS_mid (x y : list ascii) (c : ascii) :
  isWhiteSpace c = false -> dropWS (x ++ c :: y) = dropWS x ++ c :: y.
Proof.
  intros H. rewrite dropWS_app. destruct (forallb isWhiteSpace x) eqn:E; [|done].
  rewrite (dropWS_all x E). simpl. by rewrite H.
Qed.

Lemma dropWSEnd_mid (x y : list ascii) (c : ascii) :
  isWhiteSpace c = false -> dropWSEnd (x ++ c :: y) = x ++ c :: dropWSEnd y.
Proof.
  intros H. unfold dropWSEnd. rewrite rev_app_distr. simpl. rewrite <- app_assoc. simpl.
  rewrite dropWS_mid by done. rewrite rev_app_distr. simpl.
  by rewrite rev_involutive, <- app_assoc.
Qed.

Lemma dropWSEnd_idem (l : list ascii) : dropWSEnd (dropWSEnd l) = dropWSEnd l.
Proof. unfold dropWSEnd. by rewrite rev_involutive, dropWS_idem. Qed.

Lemma dropWS_dropWSEnd (l : list ascii) : dropWS (dropWSEnd l) = dropWSEnd (dropWS l).
Proof.
  destruct (dropWS_split l) as (p & Hp & Hws).
  destruct (dropWS l) as [|c r] eqn:E.
  - rewrite app_nil_r in Hp. subst p.
    assert (H : dropWSEnd l = []).
    { unfold dropWSEnd. rewrite dropWS_all; [done|].
      rewrite forallb_forall in *. intros x Hx. apply Hws. by apply in_rev. }
    by rewrite H.
  - pose proof (dropWS_head _ _ _ E) as Hc.
    rewrite Hp at 1. rewrite dropWSEnd_mid by done.
    rewrite dropWS_mid by done. rewrite (dropWS_all p Hws). simpl.
    symmetry. exact (dropWSEnd_mid [] r c Hc).
Qed.

Lemma trim_trimStart (s : string) : trim (trimStart s) = trim s.
Proof.
  apply chars_inj. by rewrite !chars_trim, chars_trimStart, dropWS_idem.
Qed.

Lemma trim_trimEnd (s : string) : trim (trimEnd s) = trim s.
Proof.
  apply chars_inj. rewrite !chars_trim, chars_trimEnd.
  fold (dropWSEnd (chars s)). fold (dropWSEnd (dropWS (dropWSEnd (chars s)))).
  fold (dropWSEnd (dropWS (chars s))).
  by rewrite dropWS_dropWSEnd, dropWSEnd_idem.
Qed.

(** [split] on a separator that occurs once, or not at all. *)
Lemma split_absent (s : string) (sep : ascii) :
  ~ In sep (chars s) -> split s sep = [s].
Proof.
  induction s as [|c s IH]; simpl; [done|]. intros H.
  destruct (Ascii.eqb c sep) eqn:E.
  - apply Ascii.eqb_eq in E. subst. destruct H. by left.
  - rewrite IH by tauto. done.
Qed.

Lemma split_at (a b : string) (sep : ascii) :
  ~ In sep (chars a) -> split (a +:+ String sep b) sep = a :: split b sep.
Proof.
  induction a as [|c a IH]; simpl.
  - intros _. by rewrite Ascii.eqb_refl.
  - intros H. destruct (Ascii.eqb c sep) eqn:E.
    + apply Ascii.eqb_eq in E. subst. destruct H. by left.
    + rewrite IH by tauto. done.
Qed.

End StringLemmas.

(** ** Statements: what a line is read as *)

Section KeyValue.

(** X1. A line whose key has neither colon nor at-sign is split at its
    first colon: the key and the whole rest of the line, each trimmed; the
    value may contain colons. *)
Theorem parseKeyValue_plain (k v : string) (n : nat) :
  includes k ":" = false ->
  includes k "@" = false ->
  trim k <> EmptyString ->
  Parser.parseKeyValue (k +:+ String ":" v) n = Ok (trim k, trim v, None).
Proof.
  intros Hcolon Hat Hkey. unfold Parser.parseKeyValue.
  assert (Hidx : indexOf k ":" = -1).
  { unfold includes in Hcolon. apply negb_false_iff, Z.eqb_eq in Hcolon. exact Hcolon. }
  rewrite (indexOf_append k v ":" Hidx).
  destruct (Z.of_nat (String.length k) =? -1) eqn:E; [apply Z.eqb_eq in E; lia|].
  rewrite slice_prefix, sliceFrom_suffix.
  destruct (String.eqb (trim k) EmptyString) eqn:Ek; [by apply String.eqb_eq in Ek|].
  assert (Hat' : includes (trim k) "@" = false).
  { apply includes_false. intros H. apply trim_In in H. by apply includes_false in Hat. }
  by rewrite Hat'.
Qed.

Lemma parseKeyValue_plain_witness :
  Parser.parseKeyValue (" Website " +:+ String ":" " https://example.org:8080/ ") 3
  = Ok (trim " Website ", trim " https://example.org:8080/ ", None).
Proof. apply parseKeyValue_plain; [reflexivity | reflexivity | vm_compute; discriminate]. Defined.

(** X2. A key of the form key, at-sign, type is split at the at-sign, both
    parts trimmed. The type must not be blank; the key part may be: the
    empty-key check is made on the key with its annotation. *)
Theorem parseKeyValue_typed (k t v : string) (n : nat) :
  includes k ":" = false -> includes t ":" = false ->
  includes k "@" = false -> includes t "@" = false ->
  trim t <> EmptyString ->
  Parser.parseKeyValue (k +:+ String "@" t +:+ String ":" v) n
  = Ok (trim k, trim v, Some (trim t)).
Proof.
  intros Hck Hct Hak Hat Htype. unfold Parser.parseKeyValue.
  apply includes_false in Hck, Hct, Hak, Hat.
  set (K := k +:+ String "@" t).
  assert (HK : k +:+ String "@" t +:+ String ":" v = K +:+ String ":" v).
  { apply chars_inj. unfold K. repeat (rewrite chars_append; simpl).
    by rewrite <- app_assoc. }
  rewrite HK.
  assert (Hidx : indexOf K ":" = -1).
  { apply indexOf_absent. unfold K. rewrite chars_append. simpl.
    intros H. apply in_app_or in H. destruct H as [H|[H|H]]; [done | discriminate | done]. }
  rewrite (indexOf_append K v ":" Hidx).
  destruct (Z.of_nat (String.length K) =? -1) eqn:E; [apply Z.eqb_eq in E; lia|].
  rewrite slice_prefix, sliceFrom_suffix.
  assert (Hat_ws : isWhiteSpace "@" = false) by reflexivity.
  assert (Htrim : trim K = trimStart k +:+ String "@" (trimEnd t)).
  { apply chars_inj. rewrite chars_trim. unfold K.
    rewrite !chars_append. simpl. rewrite chars_trimStart, chars_trimEnd.
    rewrite dropWS_mid by done.
    fold (dropWSEnd (dropWS (chars k) ++ "@"%char :: chars t)).
    by rewrite dropWSEnd_mid. }
  rewrite Htrim.
  destruct (String.eqb _ EmptyString) eqn:Ee.
  { apply String.eqb_eq in Ee. apply (f_equal chars) in Ee.
    rewrite chars_append in Ee. simpl in Ee. by destruct (chars (trimStart k)). }
  assert (Hinc : includes (trimStart k +:+ String "@" (trimEnd t)) "@" = true).
  { apply includes_true. rewrite chars_append. apply in_or_app. right. by left. }
  rewrite Hinc.
  rewrite split_at.
  2:{ rewrite chars_trimStart. intros H. by apply dropWS_In in H. }
  rewrite split_absent.
  2:{ rewrite chars_trimEnd. intros H. by apply (dropWSEnd_In (chars t)) in H. }
  rewrite trim_trimStart, trim_trimEnd.
  destruct (String.eqb (trim t) EmptyString) eqn:Et; [by apply String.eqb_eq in Et | done].
Qed.

Lemma parseKeyValue_typed_witness :
  Parser.parseKeyValue (EmptyString +:+ String "@" "url " +:+ String ":" " x") 1
  = Ok (trim EmptyString, trim " x", Some (trim "url ")).
Proof.
  apply parseKeyValue_typed; [reflexivity | reflexivity | reflexivity | reflexivity |].
  vm_compute; discriminate.
Defined.

End KeyValue.

(** ** Values *)

Section Values.

Lemma split_parts (s : string) (sep : ascii) :
  Forall (fun p => ~ In sep (chars p)) (split s sep).
Proof.
  induction s as [|c s IH]; simpl.
  - constructor; [by intros [] | constructor].
  - destruct (Ascii.eqb c sep) eqn:E.
    + constructor; [by intros [] | exact IH].
    + apply Ascii.eqb_neq in E. destruct (split s sep) as [|h t]; simpl.
      * constructor; [|constructor]. simpl. intros [H|[]]. by apply E.
      * inversion IH as [|? ? Hh Ht]; subst. constructor; [|exact Ht].
        simpl. intros [H|H]; [by apply E | by apply Hh].
Qed.

(** X3. The value processor yields either one string without a comma, or
    a list of strings each of which is non-empty, trimmed and without a
    comma: empty parts are dropped, and no part keeps surrounding white
    space. *)
Theorem processValue_shape (value : string) :
  (exists s, Parser.processValue value = VStr s /\ includes s "," = false)
  \/ (exists items,
        Parser.processValue value = VArr (map VStr items)
        /\ Forall (fun s => s <> EmptyString /\ trim s = s /\ includes s "," = false) items).
Proof.
  unfold Parser.processValue.
  set (v := if _ && _ then _ else _).
  destruct (includes v ",") eqn:E; [right | left; by exists v].
  eexists. split; [reflexivity|].
  apply List.Forall_forall. intros s Hs. apply filter_In in Hs. destruct Hs as [Hin Hne].
  apply in_map_iff in Hin. destruct Hin as (p & <- & Hp).
  split; [|split].
  - intros H. rewrite H in Hne. discriminate.
  - apply trim_idem.
  - apply includes_false. intros H. apply trim_In in H.
    pose proof (split_parts v ",") as Hall. rewrite List.Forall_forall in Hall.
    by apply (Hall p Hp).
Qed.

End Values.

(** ** Multiline values *)

Section Multiline.

(** X4. While a multiline value is open the lines are buffered as they
    are, whatever they contain (comments, blank lines, Begin and End
    lines, statements): up to the closing line neither the frame stack nor
    the name stack changes and no plugin is consulted, and the closing
    line assigns the buffer, the body lines and what precedes the marker,
    joined by newlines and trimmed. *)
Theorem multiline_body_verbatim (pm : option PluginManager) (body : list string)
    (closing key : string) :
  Forall (fun l => endsWith (trim l) tripleQuote = false) body ->
  endsWith (trim closing) tripleQuote = true ->
  forall (n : nat) (st : Parser.State) (current : object),
    Parser.inMultiline st = true ->
    Parser.multilineKey st = Some key ->
    last (Parser.stack st) = Some current ->
    Parser.processLines pm (body ++ [closing]) n st
    = (current' ← covered
                    (Parser.assignValue current key
                       (VStr (trim (join (Parser.multilineBuffer st ++ body
                                            ++ [slice (trim closing) 0 (-3)])
                                      (String LF EmptyString)))));
       Ok {| Parser.stack := Parser.setTop (Parser.stack st) current';
             Parser.blockNames := Parser.blockNames st;
             Parser.inMultiline := false; Parser.multilineKey := None;
             Parser.multilineBuffer := [] |}).
Proof.
  intros Hbody Hclose. induction Hbody as [|l body Hl _ IH]; intros n st current Hin Hkey Hlast.
  - simpl. unfold Parser.processLine, Parser.handleMultilineContent.
    rewrite Hin, Hclose, Hkey. simpl. unfold Parser.assignTop. rewrite Hlast.
    by destruct (Parser.assignValue current key _).
  - simpl. unfold Parser.processLine at 1, Parser.handleMultilineContent.
    rewrite Hin, Hl. simpl.
    rewrite (IH (S n) _ current); [|done|done|done]. simpl.
    by rewrite <- app_assoc.
Qed.

Lemma multiline_body_verbatim_witness :
  let st := {| Parser.stack := [[]]; Parser.blockNames := [];
               Parser.inMultiline := true; Parser.multilineKey := Some "Bio"%string;
               Parser.multilineBuffer := [] |} in
  Parser.processLines None (["# not a comment"; "Begin X"; ""; "Key: v"]%string ++ [tripleQuote]) 2 st
  = (current' ← covered
                  (Parser.assignValue [] "Bio"
                     (VStr (trim (join (Parser.multilineBuffer st
                                          ++ ["# not a comment"; "Begin X"; ""; "Key: v"]%string
                                          ++ [slice (trim tripleQuote) 0 (-3)])
                                    (String LF EmptyString)))));
     Ok {| Parser.stack := Parser.setTop (Parser.stack st) current';
           Parser.blockNames := Parser.blockNames st;
           Parser.inMultiline := false; Parser.multilineKey := None;
           Parser.multilineBuffer := [] |}).
Proof.
  apply (multiline_body_verbatim None ["# not a comment"; "Begin X"; ""; "Key: v"]%string
           tripleQuote "Bio");
    [repeat constructor | reflexivity | reflexivity | reflexivity | reflexivity].
Defined.

End Multiline.

(** ** Blocks *)

Section Blocks.

Lemma balanced_nonempty (st : Parser.State) : balanced st -> Parser.stack st <> [].
Proof. unfold balanced. by destruct (Parser.stack st). Qed.

Lemma last_app_nonempty {A} (base l : list A) : l <> [] -> last (base ++ l) = last l.
Proof.
  intros H. rewrite last_app. destruct (last l) eqn:E; [done|].
  by apply last_None in E.
Qed.

Lemma setTop_app (base l : list object) (o : object) :
  l <> [] -> Parser.setTop (base ++ l) o = base ++ Parser.setTop l o.
Proof.
  intros H. unfold Parser.setTop. rewrite removelast_app by done. by rewrite <- app_assoc.
Qed.

Lemma assignTop_lift (base : list object) (bn : list string) (st st' : Parser.State)
    (k : string) (v : value) :
  Parser.stack st <> [] ->
  Parser.assignTop st k v = Ok st' ->
  Parser.assignTop (lift base bn st) k v = Ok (lift base bn st').
Proof.
  intros Hne. unfold Parser.assignTop. simpl. rewrite (last_app_nonempty base _ Hne).
  destruct (last (Parser.stack st)) as [current|]; [|discriminate].
  destruct (Parser.assignValue current k v) as [current'|]; [|discriminate].
  intros [= <-]. unfold lift, Parser.withStack. simpl. by rewrite setTop_app.
Qed.

Lemma handleBlockStart_lift (base : list object) (bn : list string) (line : string)
    (n : nat) (s s' : list object) (names names' : list string) :
  s <> [] ->
  Parser.handleBlockStart line n s names = Ok (s', names') ->
  Parser.handleBlockStart line n (base ++ s) (bn ++ names) = Ok (base ++ s', bn ++ names').
Proof.
  intros Hne. unfold Parser.handleBlockStart.
  destruct (String.eqb _ _); [discriminate|].
  rewrite (last_app_nonempty base s Hne).
  destruct (last s) as [current|]; [|discriminate].
  destruct (covered _) as [current'| |]; [|discriminate..]. simpl.
  destruct (get _ _) as [| | | | | |fields|]; try discriminate.
  - intros [= <- <-]. rewrite setTop_app by done. by rewrite <- !app_assoc.
  - by destruct (get fields "push").
Qed.

Lemma popBlock_app (base s : list object) (name : string) (k : nat) :
  length s = S (S k) -> Parser.popBlock (base ++ s) name = base ++ Parser.popBlock s name.
Proof.
  intros Hlen.
  assert (Hne : s <> []) by (intros ->; discriminate).
  unfold Parser.popBlock. rewrite (last_app_nonempty base s Hne).
  destruct (last s) as [block|] eqn:E; [|by apply last_None in E].
  rewrite removelast_app by done.
  assert (Hne' : removelast s <> []).
  { pose proof (length_removelast_S _ _ E) as H. intros H'. rewrite H' in H. simpl in H. lia. }
  rewrite (last_app_nonempty base _ Hne').
  destruct (last (removelast s)) as [parent|] eqn:E'; [|by apply last_None in E'].
  by rewrite setTop_app.
Qed.

Lemma handleBlockEnd_lift (base : list object) (bn : list string) (line : string)
    (n : nat) (s s' : list object) (names names' : list string) :
  length s = S (length names) ->
  Parser.handleBlockEnd line n s names = Ok (s', names') ->
  Parser.handleBlockEnd line n (base ++ s) (bn ++ names) = Ok (base ++ s', bn ++ names').
Proof.
  intros Hlen. unfold Parser.handleBlockEnd.
  destruct (String.eqb _ _); [discriminate|].
  destruct (last names) as [lastName|] eqn:E; [|discriminate].
  assert (Hne : names <> []) by (intros ->; discriminate).
  rewrite (last_app_nonempty bn names Hne), E.
  destruct (negb _); [discriminate|].
  intros [= <- <-].
  pose proof (length_removelast_S _ _ E) as H1.
  rewrite (popBlock_app base s lastName (length (removelast names))) by lia.
  by rewrite removelast_app.
Qed.

Lemma processLine_lift (pm : option PluginManager) (base : list object)
    (bn : list string) (n : nat) (st st' : Parser.State) (rawLine : string) :
  balanced st ->
  Parser.processLine pm st n rawLine = Ok st' ->
  Parser.processLine pm (lift base bn st) n rawLine = Ok (lift base bn st').
Proof.
  intros Hb. pose proof (balanced_nonempty st Hb) as Hne.
  unfold Parser.processLine. simpl.
  destruct (Parser.inMultiline st).
  { destruct (Parser.handleMultilineContent _ _) as [[] buffer].
    - destruct (Parser.assignTop st _ _) as [st1| |] eqn:E; [|discriminate..].
      rewrite (assignTop_lift base bn st st1 _ _ Hne E). simpl. by intros [= <-].
    - by intros [= <-]. }
  destruct (_ || _); [by intros [= <-]|].
  assert (Hctx : Parser.blockContext (lift base bn st) n rawLine
                 = Parser.blockContext st n rawLine).
  { unfold Parser.blockContext. simpl. by rewrite (last_app_nonempty base _ Hne). }
  destruct (test "begin" _).
  { rewrite Hctx.
    destruct (match pm with Some _ => _ | None => _ end); [|discriminate..]. simpl.
    destruct (Parser.handleBlockStart _ _ _ _) as [[s' names']| |] eqn:E; [|discriminate..].
    rewrite (handleBlockStart_lift base bn _ _ _ _ _ _ Hne E). simpl. by intros [= <-]. }
  destruct (test "end" _).
  { rewrite Hctx.
    destruct (match pm with Some _ => _ | None => _ end); [|discriminate..]. simpl.
    destruct (Parser.handleBlockEnd _ _ _ _) as [[s' names']| |] eqn:E; [|discriminate..].
    rewrite (handleBlockEnd_lift base bn _ _ _ _ _ _ Hb E). simpl. by intros [= <-]. }
  destruct (Parser.parseKeyValue _ _) as [[[key val] type]| |]; [|discriminate..]. simpl.
  destruct (startsWith val tripleQuote); [by intros [= <-]|].
  unfold Parser.assignKeyValue.
  assert (Hkv : forall pv, Parser.keyValueContext (lift base bn st) n rawLine key val type pv
                           = Parser.keyValueContext st n rawLine key val type pv).
  { intros pv. unfold Parser.keyValueContext. simpl.
    by rewrite (last_app_nonempty base _ Hne). }
  destruct pm as [pm|].
  - rewrite Hkv.
    destruct (match type with Some _ => _ | None => _ end) as [pv| |]; [|discriminate..]. simpl.
    destruct (Manager.onKeyValue _ _ _ _) as [r| |]; [|discriminate..]. simpl.
    by apply assignTop_lift.
  - destruct type; by apply assignTop_lift.
Qed.

(** X5. Frame locality. A run of the line loop that succeeds on a stack of
    its own succeeds in the same way on top of any frames and open block
    names: it reads and writes only the frames it has itself pushed and the
    frame it started on, and the plugins see the same contexts. *)
Theorem processLines_frame (pm : option PluginManager) (base : list object)
    (bn : list string) (lines : list string) :
  forall (n : nat) (st st' : Parser.State),
    balanced st ->
    Parser.processLines pm lines n st = Ok st' ->
    Parser.processLines pm lines n (lift base bn st) = Ok (lift base bn st').
Proof.
  induction lines as [|rawLine lines IH]; intros n st st' Hb; simpl.
  - by intros [= <-].
  - destruct (Parser.processLine pm st n rawLine) as [st1| |] eqn:E; [|discriminate..]. simpl.
    rewrite (processLine_lift pm base bn _ _ _ _ Hb E). simpl. apply IH.
    by apply (processLine_balanced pm st st1 n rawLine).
Qed.


(** Two statements and a block, read on top of one frame and one open
    name. *)
Lemma processLines_frame_witness :
  let st' := {| Parser.stack := [[("X", VStr "1"); ("B", VArr [VObj [("Y", VStr "2")]])]]%string;
                Parser.blockNames := [];
                Parser.inMultiline := false; Parser.multilineKey := None;
                Parser.multilineBuffer := [] |} in
  Parser.processLines None ["X: 1"; "Begin B"; "Y: 2"; "End B"]%string 5
    (lift [[("A", VStr "0")]]%string ["Outer"]%string Parser.initial)
  = Ok (lift [[("A", VStr "0")]]%string ["Outer"]%string st').
Proof.
  apply (processLines_frame None [[("A", VStr "0")]]%string ["Outer"]%string
           ["X: 1"; "Begin B"; "Y: 2"; "End B"]%string 5 Parser.initial);
    [reflexivity | vm_compute; reflexivity].
Defined.

Lemma processLines_cons (pm : option PluginManager) (l : string) (lines : list string)
    (n : nat) (st : Parser.State) :
  Parser.processLines pm (l :: lines) n st
  = (st' ← Parser.processLine pm st n l; Parser.processLines pm lines (S n) st').
Proof. reflexivity. Qed.

Lemma processLines_app (pm : option PluginManager) (l1 l2 : list string) :
  forall (n : nat) (st : Parser.State),
    Parser.processLines pm (l1 ++ l2) n st
    = (st' ← Parser.processLines pm l1 n st;
       Parser.processLines pm l2 (n + length l1)%nat st').
Proof.
  induction l1 as [|l l1 IH]; intros n st; simpl.
  - by rewrite Nat.add_0_r.
  - destruct (Parser.processLine pm st n l) as [st1| |]; simpl; [|done..].
    rewrite IH. by replace (S n + length l1)%nat with (n + S (length l1))%nat by lia.
Qed.

Lemma processLine_reset (pm : option PluginManager) (st st' : Parser.State) (n : nat)
    (rawLine : string) :
  (Parser.inMultiline st = false -> idle st) ->
  Parser.processLine pm st n rawLine = Ok st' ->
  Parser.inMultiline st' = false -> idle st'.
Proof.
  unfold idle, Parser.processLine. intros Hst.
  destruct (Parser.inMultiline st) eqn:Hin.
  { destruct (Parser.handleMultilineContent _ _) as [[] buffer].
    - destruct (Parser.assignTop st _ _) as [st1| |]; [|discriminate..]. simpl.
      by intros [= <-].
    - intros [= <-]. simpl. discriminate. }
  specialize (Hst eq_refl). destruct Hst as (_ & Hk & Hb).
  assert (Hassign : forall k v, Parser.assignTop st k v = Ok st' ->
            Parser.inMultiline st' = false ->
            Parser.inMultiline st' = false /\ Parser.multilineKey st' = None
            /\ Parser.multilineBuffer st' = []).
  { intros k v. unfold Parser.assignTop. destruct (last _) as [current|]; [|discriminate].
    destruct (Parser.assignValue current k v); [|discriminate].
    by intros [= <-]. }
  destruct (_ || _); [intros [= <-]; by rewrite Hin|].
  destruct (test "begin" _).
  { destruct (match pm with Some _ => _ | None => _ end); [|discriminate..]. simpl.
    destruct (Parser.handleBlockStart _ _ _ _) as [[s' names']| |]; [|discriminate..].
    simpl. by intros [= <-]. }
  destruct (test "end" _).
  { destruct (match pm with Some _ => _ | None => _ end); [|discriminate..]. simpl.
    destruct (Parser.handleBlockEnd _ _ _ _) as [[s' names']| |]; [|discriminate..].
    simpl. by intros [= <-]. }
  destruct (Parser.parseKeyValue _ _) as [[[key val] type]| |]; [|discriminate..]. simpl.
  destruct (startsWith val tripleQuote); [intros [= <-]; simpl; discriminate|].
  unfold Parser.assignKeyValue. destruct pm as [pm|].
  - destruct (match type with Some _ => _ | None => _ end); [|discriminate..]. simpl.
    destruct (Manager.onKeyValue _ _ _ _); [|discriminate..]. simpl. apply Hassign.
  - destruct type; apply Hassign.
Qed.

Lemma processLines_reset (pm : option PluginManager) (lines : list string) :
  forall (n : nat) (st st' : Parser.State),
    (Parser.inMultiline st = false -> idle st) ->
    Parser.processLines pm lines n st = Ok st' ->
    Parser.inMultiline st' = false -> idle st'.
Proof.
  induction lines as [|l lines IH]; intros n st st' Hst; simpl.
  - intros [= <-]. exact Hst.
  - destruct (Parser.processLine pm st n l) as [st1| |] eqn:E; [|discriminate..]. simpl.
    apply IH. by apply (processLine_reset pm st st1 n l).
Qed.

Lemma trim_prefixed (p s : string) (c : ascii) (r : string) :
  p = String c r -> isWhiteSpace c = false ->
  trim s = s -> s <> EmptyString ->
  trim (p +:+ s) = p +:+ s.
Proof.
  intros -> Hc Hs Hne. unfold trim. simpl. rewrite Hc.
  destruct (chars s) as [|d l] eqn:E using rev_ind; [by apply chars_nil in E|].
  clear IHl.
  assert (Hd : isWhiteSpace d = false).
  { apply (trim_last s l d). by rewrite Hs. }
  apply (trimEnd_fixed _ (c :: chars r ++ l) d); [|done].
  simpl. rewrite chars_append, E. by rewrite <- app_assoc.
Qed.

Lemma trimStart_trimmed (s : string) : trim s = s -> trimStart s = s.
Proof.
  intros H. destruct s as [|c r]; [done|].
  pose proof (trim_first _ _ _ H) as Hc. simpl. by rewrite Hc.
Qed.

Lemma handleBlockStart_blockList (line : string) (n : nat) (stack : list object)
    (names : list string) (current : object) (items : list value) :
  last stack = Some current ->
  trim (replace "begin" line) <> EmptyString ->
  blockList current (trim (replace "begin" line)) = Some items ->
  Parser.handleBlockStart line n stack names
  = Ok (Parser.setTop stack
          (defineOwn current (trim (replace "begin" line)) (VArr (items ++ [VObj []]))) ++ [[]],
        names ++ [trim (replace "begin" line)]).
Proof.
  intros Hlast Hname Hlist. unfold Parser.handleBlockStart. cbv zeta.
  set (name := trim (replace "begin" line)) in *.
  destruct (String.eqb name EmptyString) eqn:E; [by apply String.eqb_eq in E|].
  rewrite Hlast. unfold blockList in Hlist.
  destruct (truthy (get current name)) eqn:Ht; simpl.
  - destruct (get current name) eqn:Hget; cbv beta iota in Hlist;
      rewrite ?Ht in Hlist; try discriminate.
    by injection Hlist as <-.
  - rewrite set_undefined by (by rewrite Ht). simpl.
    rewrite get_defineOwn_eq, defineOwn_defineOwn_eq.
    destruct (get current name) eqn:Hget; cbv beta iota in Hlist;
      rewrite ?Ht in Hlist; try discriminate.
    all: by injection Hlist as <-.
Qed.

(** X6. A block is parsed on its own and appended to the list under its
    name. When the lines of [body] alone parse to the frame [f], the lines
    Begin name, [body], End name, read outside a multiline value with no
    plugin manager, leave every stack as it was but for the top frame,
    which gets [f] appended to the list under [name]: the list that was
    there, or a new one when nothing truthy was stored there. *)
Theorem block_round_trip (name : string) (body : list string) (n : nat)
    (st stB : Parser.State) (current f : object) (items : list value) :
  trim name = name ->
  name <> EmptyString ->
  idle st ->
  last (Parser.stack st) = Some current ->
  blockList current name = Some items ->
  Parser.processLines None body (S n) Parser.initial = Ok stB ->
  Parser.stack stB = [f] ->
  Parser.inMultiline stB = false ->
  Parser.processLines None (("Begin " +:+ name) :: body ++ ["End " +:+ name]) n st
  = Ok {| Parser.stack :=
            Parser.setTop (Parser.stack st) (defineOwn current name (VArr (items ++ [VObj f])));
          Parser.blockNames := Parser.blockNames st;
          Parser.inMultiline := false; Parser.multilineKey := None;
          Parser.multilineBuffer := [] |}.
Proof.
  intros Htrim Hne (Hin & Hkey & Hbuf) Hlast Hlist Hbody HstackB HinB.
  assert (HbalB : balanced stB).
  { apply (processLines_balanced None body (S n) Parser.initial); [reflexivity | exact Hbody]. }
  assert (HnamesB : Parser.blockNames stB = []).
  { unfold balanced in HbalB. rewrite HstackB in HbalB. simpl in HbalB.
    destruct (Parser.blockNames stB); [done | discriminate]. }
  assert (HidleB : idle stB).
  { apply (processLines_reset None body (S n) Parser.initial stB); [|exact Hbody|exact HinB].
    intros _. by repeat split. }
  destruct HidleB as (_ & HkeyB & HbufB).
  set (parent := defineOwn current name (VArr (items ++ [VObj []]))).
  set (base := Parser.setTop (Parser.stack st) parent).
  set (bn := Parser.blockNames st ++ [name]).
  (* the Begin line *)
  assert (Hbegin : Parser.processLine None st n ("Begin " +:+ name)
                   = Ok (lift base bn Parser.initial)).
  { unfold Parser.processLine. rewrite Hin.
    rewrite (trim_prefixed "Begin " name "B" "egin ") by done.
    assert (Hkw : matchKeyword "begin" ("Begin " +:+ name) = Some name).
    { unfold matchKeyword. simpl. by rewrite trimStart_trimmed. }
    unfold test. rewrite Hkw. simpl.
    assert (Hname : trim (replace "begin" ("Begin " +:+ name)) = name).
    { unfold replace. rewrite Hkw. exact Htrim. }
    rewrite (handleBlockStart_blockList _ n _ _ current items Hlast);
      rewrite Hname; [|done|done].
    simpl. unfold lift, Parser.withStack, base, bn, parent. simpl.
    by rewrite Hin, Hkey, Hbuf, app_nil_r. }
  (* the body, on top of the frames below *)
  assert (Hrun : Parser.processLines None body (S n) (lift base bn Parser.initial)
                 = Ok (lift base bn stB)).
  { assert (Hgen : forall lines m s s',
              balanced s ->
              Parser.processLines None lines m s = Ok s' ->
              Parser.processLines None lines m (lift base bn s) = Ok (lift base bn s')).
    { induction lines as [|l lines IH]; intros m s s' Hb; simpl; [by intros [= <-]|].
      destruct (Parser.processLine None s m l) as [s1| |] eqn:E; [|discriminate..]. simpl.
      rewrite (processLine_lift None base bn _ _ _ _ Hb E). simpl. apply IH.
      by apply (processLine_balanced None s s1 m l). }
    apply Hgen; [reflexivity | exact Hbody]. }
  (* the End line *)
  assert (Hend : forall m, Parser.processLine None (lift base bn stB) m ("End " +:+ name)
                 = Ok {| Parser.stack :=
                           Parser.setTop (Parser.stack st)
                             (defineOwn current name (VArr (items ++ [VObj f])));
                         Parser.blockNames := Parser.blockNames st;
                         Parser.inMultiline := false; Parser.multilineKey := None;
                         Parser.multilineBuffer := [] |}).
  { intros m. unfold Parser.processLine. simpl. rewrite HinB.
    rewrite (trim_prefixed "End " name "E" "nd ") by done.
    assert (Hkw : matchKeyword "end" ("End " +:+ name) = Some name).
    { unfold matchKeyword. simpl. by rewrite trimStart_trimmed. }
    assert (Hnb : test "begin" ("End " +:+ name) = false) by reflexivity.
    rewrite Hnb. unfold test at 1, replace. rewrite Hkw. simpl.
    unfold Parser.handleBlockEnd, replace. rewrite Hkw. simpl. rewrite Htrim.
    destruct (String.eqb name EmptyString) eqn:E; [by apply String.eqb_eq in E|].
    rewrite HnamesB, app_nil_r. unfold bn. rewrite last_snoc, String.eqb_refl. simpl.
    rewrite removelast_last. unfold Parser.withStack. simpl. rewrite HkeyB, HbufB, HinB.
    f_equal. f_equal.
    rewrite HstackB. unfold Parser.popBlock. rewrite last_snoc, removelast_last.
    unfold base, Parser.setTop. rewrite last_snoc, removelast_last.
    unfold Parser.writeBack, parent. rewrite get_defineOwn_eq, last_snoc, removelast_last.
    by rewrite defineOwn_defineOwn_eq. }
  rewrite processLines_cons, Hbegin. simpl.
  rewrite processLines_app, Hrun. simpl. by rewrite Hend.
Qed.

(** The block P with one statement, at the root of a document that holds
    one P already. *)
Lemma block_round_trip_witness :
  let st := {| Parser.stack := [[("P", VArr [VObj []])]]%string; Parser.blockNames := [];
               Parser.inMultiline := false; Parser.multilineKey := None;
               Parser.multilineBuffer := [] |} in
  Parser.processLines None (("Begin " +:+ "P") :: ["X: 1"]%string ++ ["End " +:+ "P"]) 3 st
  = Ok {| Parser.stack :=
            Parser.setTop (Parser.stack st)
              (defineOwn [("P", VArr [VObj []])]%string "P"
                 (VArr ([VObj []] ++ [VObj [("X", VStr "1")]%string])));
          Parser.blockNames := Parser.blockNames st;
          Parser.inMultiline := false; Parser.multilineKey := None;
          Parser.multilineBuffer := [] |}.
Proof.
  apply (block_round_trip "P" ["X: 1"]%string 3 _
           {| Parser.stack := [[("X", VStr "1")]]%string; Parser.blockNames := [];
              Parser.inMultiline := false; Parser.multilineKey := None;
              Parser.multilineBuffer := [] |}
           [("P", VArr [VObj []])]%string [("X", VStr "1")]%string [VObj []]);
    try reflexivity; [discriminate | by repeat split].
Defined.

(** X19. An End line, read outside a multiline value with no plugin
    manager: with no block open it fails with 'No open blocks to close';
    with another block innermost it fails with the mismatch error that
    names the open block and the name given; with the named block
    innermost it pops both stacks. *)
Theorem end_line (st : Parser.State) (n : nat) (name : string) :
  trim name = name ->
  name <> EmptyString ->
  Parser.inMultiline st = false ->
  Parser.processLine None st n ("End " +:+ name)
  = match last (Parser.blockNames st) with
    | None =>
        Err (DSLParseError "No open blocks to close" (Some n) (Some ("End " +:+ name)))
    | Some open =>
        if String.eqb open name
        then Ok (Parser.withStack st (Parser.popBlock (Parser.stack st) open)
                   (removelast (Parser.blockNames st)))
        else Err (DSLParseError
                    ("Mismatched End: expected '" +:+ open +:+ "', got '" +:+ name +:+ "'")
                    (Some n) (Some ("End " +:+ name)))
    end.
Proof.
  intros Htrim Hne Hin. unfold Parser.processLine. rewrite Hin.
  rewrite (trim_prefixed "End " name "E" "nd ") by done.
  assert (Hkw : matchKeyword "end" ("End " +:+ name) = Some name).
  { unfold matchKeyword. simpl. by rewrite trimStart_trimmed. }
  assert (Hnb : test "begin" ("End " +:+ name) = false) by reflexivity.
  rewrite Hnb. unfold test at 1. rewrite Hkw. simpl.
  unfold Parser.handleBlockEnd, replace. rewrite Hkw. simpl. rewrite Htrim.
  destruct (String.eqb name EmptyString) eqn:E; [by apply String.eqb_eq in E|].
  destruct (last (Parser.blockNames st)) as [open|]; [|done].
  by destruct (String.eqb open name).
Qed.

Lemma end_line_witness :
  Parser.processLines None ["Begin A"; "End B"]%string 1 Parser.initial
  = Err (DSLParseError "Mismatched End: expected 'A', got 'B'" (Some 2%nat)
           (Some "End B"%string))
  /\ Parser.processLine None Parser.initial 1 ("End " +:+ "A")
     = match last (Parser.blockNames Parser.initial) with
       | None =>
           Err (DSLParseError "No open blocks to close" (Some 1%nat) (Some ("End " +:+ "A")))
       | Some open =>
           if String.eqb open "A"
           then Ok (Parser.withStack Parser.initial
                      (Parser.popBlock (Parser.stack Parser.initial) open)
                      (removelast (Parser.blockNames Parser.initial)))
           else Err (DSLParseError
                       ("Mismatched End: expected '" +:+ open +:+ "', got '" +:+ "A" +:+ "'")
                       (Some 1%nat) (Some ("End " +:+ "A")))
       end.
Proof.
  split; [reflexivity|].
  apply (end_line Parser.initial 1 "A"); [reflexivity | discriminate | reflexivity].
Defined.

End Blocks.

(** ** Failures of a parse *)

Section Failures.

Lemma guarded_Err {A} (p : Plugin) (code : string) (r : result A) (e : exn) :
  Manager.guarded p code r = Err e -> isPluginError e.
Proof.
  unfold Manager.guarded. destruct r; [discriminate| |discriminate]. intros [= <-].
  unfold Manager.createPluginError. by eexists _, _, _.
Qed.

Lemma blockHookLoop_Err (hook : Plugin -> option (string -> PluginContext -> result unit))
    (code : string) (l : list Plugin) (blockName : string) (context : PluginContext)
    (e : exn) :
  Manager.blockHookLoop hook code l blockName context = Err e -> isPluginError e.
Proof.
  induction l as [|p l IH]; simpl; [discriminate|].
  destruct (hook p) as [f|]; [|exact IH].
  destruct (Manager.guarded p code _) eqn:E; [exact IH| |discriminate].
  intros [= <-]. by apply guarded_Err in E.
Qed.

Lemma onKeyValueLoop_Err (l : list Plugin) (r : string * value) (context : PluginContext)
    (e : exn) :
  Manager.onKeyValueLoop l r context = Err e -> isPluginError e.
Proof.
  revert r. induction l as [|p l IH]; intros r; simpl; [discriminate|].
  destruct (onKeyValue p) as [f|]; [|apply IH].
  destruct (Manager.guarded p _ _) as [[r'|]| |] eqn:E; [apply IH | apply IH | | discriminate].
  intros [= <-]. by apply guarded_Err in E.
Qed.

Lemma beforeParseLoop_Err (l : list Plugin) (input : string) (e : exn) :
  Manager.beforeParseLoop l input = Err e -> isPluginError e.
Proof.
  revert input. induction l as [|p l IH]; intros input; simpl; [discriminate|].
  destruct (beforeParse p) as [f|]; [|apply IH].
  destruct (Manager.guarded p _ _) eqn:E; [apply IH| |discriminate].
  intros [= <-]. by apply guarded_Err in E.
Qed.

Lemma afterParseLoop_Err (l : list Plugin) (data : object) (e : exn) :
  Manager.afterParseLoop l data = Err e -> isPluginError e.
Proof.
  revert data. induction l as [|p l IH]; intros data; simpl; [discriminate|].
  destruct (afterParse p) as [f|]; [|apply IH].
  destruct (Manager.guarded p _ _) eqn:E; [apply IH| |discriminate].
  intros [= <-]. by apply guarded_Err in E.
Qed.

Lemma processValue_Err (pm : PluginManager) (v : string) (type : option string)
    (context : PluginContext) (e : exn) :
  Manager.processValue pm v type context = Err e -> isPluginError e.
Proof.
  unfold Manager.processValue. destruct type as [t|]; [|discriminate].
  destruct (String.eqb t EmptyString); [discriminate|].
  destruct (typePlugins pm !! t) as [p|]; [|discriminate].
  apply guarded_Err.
Qed.

Lemma assignTop_total (st : Parser.State) (k : string) (v : value) (e : exn) :
  balanced st -> Parser.assignTop st k v <> Err e.
Proof.
  intros Hb. pose proof (balanced_nonempty st Hb) as Hne. unfold Parser.assignTop.
  destruct (last (Parser.stack st)) as [current|] eqn:E; [|by apply last_None in E].
  by destruct (Parser.assignValue current k v).
Qed.

Lemma parseKeyValue_Err (line : string) (n : nat) (e : exn) :
  Parser.parseKeyValue line n = Err e ->
  exists message, e = DSLParseError message (Some n) (Some line).
Proof.
  unfold Parser.parseKeyValue.
  repeat (match goal with
          | |- context [if ?b then _ else _] => destruct b
          | |- context [match ?l with [] => _ | _ :: _ => _ end] => destruct l
          end);
    intros [= <-]; by eexists.
Qed.

Lemma processLine_Err (pm : option PluginManager) (st : Parser.State) (n : nat)
    (rawLine : string) (e : exn) :
  balanced st ->
  Parser.processLine pm st n rawLine = Err e ->
  (exists message, e = DSLParseError message (Some n) (Some (trim rawLine)))
  \/ (is_Some pm /\ isPluginError e)
  \/ e = pushTypeError.
Proof.
  intros Hb. pose proof (balanced_nonempty st Hb) as Hne. unfold Parser.processLine.
  destruct (Parser.inMultiline st).
  { destruct (Parser.handleMultilineContent _ _) as [[] buffer]; [|discriminate].
    destruct (Parser.assignTop st _ _) eqn:E; [discriminate| |discriminate].
    by apply assignTop_total in E. }
  destruct (_ || _); [discriminate|].
  assert (Hbegin : forall r, Parser.handleBlockStart (trim rawLine) n (Parser.stack st)
                               (Parser.blockNames st) = Err r ->
                   (exists message, r = DSLParseError message (Some n) (Some (trim rawLine)))
                   \/ r = pushTypeError).
  { intros r. unfold Parser.handleBlockStart.
    destruct (String.eqb _ _); [intros [= <-]; left; by eexists|].
    destruct (last _) eqn:El; [|by apply last_None in El].
    destruct (if negb (truthy _) then _ else _) as [current'|]; simpl; [|discriminate].
    destruct (get _ _) as [| | | | | |fields|]; try (intros [= <-]; by right).
    destruct (get fields "push"); try discriminate; intros [= <-]; by right. }
  destruct (test "begin" _).
  { destruct pm as [m|]; simpl.
    - destruct (Manager.onBlockStart _ _ _) eqn:Eh; simpl; [| |discriminate].
      + destruct (Parser.handleBlockStart _ _ _ _) as [[s' names']| |] eqn:E;
          [discriminate| |discriminate].
        simpl. intros [= <-]. destruct (Hbegin _ eq_refl) as [H|H]; [by left | by right; right].
      + intros [= <-]. right. left. split; [done|].
        by apply blockHookLoop_Err in Eh.
    - destruct (Parser.handleBlockStart _ _ _ _) as [[s' names']| |] eqn:E;
        [discriminate| |discriminate].
      simpl. intros [= <-]. destruct (Hbegin _ eq_refl) as [H|H]; [by left | by right; right]. }
  assert (Hend : forall r, Parser.handleBlockEnd (trim rawLine) n (Parser.stack st)
                             (Parser.blockNames st) = Err r ->
                 exists message, r = DSLParseError message (Some n) (Some (trim rawLine))).
  { intros r. unfold Parser.handleBlockEnd.
    destruct (String.eqb _ _); [intros [= <-]; by eexists|].
    destruct (last _); [|intros [= <-]; by eexists].
    destruct (negb _); [intros [= <-]; by eexists | discriminate]. }
  destruct (test "end" _).
  { destruct pm as [m|]; simpl.
    - destruct (Manager.onBlockEnd _ _ _) eqn:Eh; simpl; [| |discriminate].
      + destruct (Parser.handleBlockEnd _ _ _ _) as [[s' names']| |] eqn:E;
          [discriminate| |discriminate].
        simpl. intros [= <-]. left. by apply Hend.
      + intros [= <-]. right. left. split; [done|]. by apply blockHookLoop_Err in Eh.
    - destruct (Parser.handleBlockEnd _ _ _ _) as [[s' names']| |] eqn:E;
        [discriminate| |discriminate].
      simpl. intros [= <-]. left. by apply Hend. }
  destruct (Parser.parseKeyValue _ _) as [[[key val] type]| |] eqn:Ekv; simpl;
    [| |discriminate].
  2:{ intros [= <-]. left. by apply parseKeyValue_Err in Ekv. }
  destruct (startsWith val tripleQuote); [discriminate|].
  unfold Parser.assignKeyValue. destruct pm as [m|].
  - destruct (match type with Some _ => _ | None => _ end) as [pv| |] eqn:Ep; simpl;
      [| |discriminate].
    + destruct (Manager.onKeyValue _ _ _ _) as [r| |] eqn:Eo; simpl; [| |discriminate].
      * intros E. by apply assignTop_total in E.
      * intros [= <-]. right. left. split; [done|]. by apply onKeyValueLoop_Err in Eo.
    + intros [= <-]. right. left. split; [done|].
      destruct type; [by apply processValue_Err in Ep | discriminate].
  - destruct type; intros E; by apply assignTop_total in E.
Qed.

Lemma processLines_Err (pm : option PluginManager) (lines : list string) :
  forall (n : nat) (st : Parser.State) (e : exn),
    balanced st ->
    Parser.processLines pm lines n st = Err e ->
    atLine lines n e \/ (is_Some pm /\ isPluginError e) \/ e = pushTypeError.
Proof.
  induction lines as [|l lines IH]; intros n st e Hb; simpl; [discriminate|].
  destruct (Parser.processLine pm st n l) as [st1|e1|] eqn:E; simpl; [| |discriminate].
  - intros H. destruct (IH (S n) st1 e (processLine_balanced _ _ _ _ _ Hb E) H)
      as [(i & line & msg & Hi & ->)|H']; [|by right].
    left. exists (S i), line, msg. split; [done|]. by rewrite Nat.add_succ_r.
  - intros [= <-]. destruct (processLine_Err _ _ _ _ _ Hb E) as [(msg & ->)|H']; [|by right].
    left. exists 0%nat, l, msg. split; [done|]. by rewrite Nat.add_0_r.
Qed.

(** X7. What a parse can throw. A failure of [parseAuthorDSL] is the
    empty-input error; or a [DSLParseError] carrying the number (from 1) and
    the trimmed text of a line of the text the engine ran on, which is the
    input itself when there is no plugin manager; or one of the two
    end-of-input errors, without line number; or, with a plugin manager
    only, a [PluginError]; or the [TypeError] raised by [push] on a value
    that is not a list. *)
Theorem parseAuthorDSL_failures (input : string) (pm : option PluginManager) (e : exn) :
  Parser.parseAuthorDSL input pm = Err e ->
  e = DSLParseError "Input cannot be empty" None None
  \/ (exists processedInput,
        preprocessed pm input processedInput /\ atLine (splitLines processedInput) 1 e)
  \/ (exists names, e = DSLParseError ("Unclosed block(s): " +:+ names) None None)
  \/ (exists key, e = DSLParseError ("Unclosed multiline value for key: " +:+ key) None None)
  \/ (is_Some pm /\ isPluginError e)
  \/ e = pushTypeError.
Proof.
  unfold Parser.parseAuthorDSL, Parser.validateInput.
  destruct (_ =? 0)%nat; simpl; [intros [= <-]; by left|].
  destruct (match pm with Some _ => _ | None => _ end) as [processedInput| |] eqn:Ep; simpl;
    [| |discriminate].
  2:{ intros [= <-]. do 4 right. left. destruct pm as [m|]; [|discriminate].
      split; [done|]. by apply beforeParseLoop_Err in Ep. }
  assert (Hpre : preprocessed pm input processedInput).
  { unfold preprocessed. destruct pm; [done | by injection Ep as <-]. }
  unfold Parser.parseEngine.
  destruct (Parser.processLines pm _ 1 Parser.initial) as [st|e1|] eqn:Erun; simpl;
    [| |discriminate].
  - unfold Parser.finish. destruct (Parser.stack st) as [|r [|]].
    + intros [= <-]. right. right. left. by eexists.
    + destruct (Parser.inMultiline st).
      * intros [= <-]. do 3 right. left. by eexists.
      * destruct pm as [m|]; [|discriminate]. intros H. do 4 right. left.
        split; [done|]. by apply afterParseLoop_Err in H.
    + intros [= <-]. right. right. left. by eexists.
  - intros [= <-].
    destruct (processLines_Err pm (splitLines processedInput) 1%nat Parser.initial e1)
      as [H|[H|H]]; [reflexivity | exact Erun | | |].
    + right. left. by exists processedInput.
    + do 4 right. by left.
    + do 5 right. exact H.
Qed.

(** The second line has no colon. *)
Lemma parseAuthorDSL_failures_witness :
  let e := DSLParseError "Invalid line format - missing colon" (Some 2%nat) (Some "B"%string) in
  Parser.parseAuthorDSL Samples.missingColon None = Err e
  /\ (e = DSLParseError "Input cannot be empty" None None
      \/ (exists processedInput,
            preprocessed None Samples.missingColon processedInput
            /\ atLine (splitLines processedInput) 1 e)
      \/ (exists names, e = DSLParseError ("Unclosed block(s): " +:+ names) None None)
      \/ (exists key, e = DSLParseError ("Unclosed multiline value for key: " +:+ key) None None)
      \/ (is_Some (@None PluginManager) /\ isPluginError e)
      \/ e = pushTypeError).
Proof.
  split; [reflexivity|].
  apply (parseAuthorDSL_failures Samples.missingColon None). reflexivity.
Defined.

End Failures.

Section BlockNames.

Lemma matchWord_suffix (kw s t : string) :
  matchWord kw s = Some t -> exists p, chars s = p ++ chars t.
Proof.
  revert s. induction kw as [|k kw IH]; intros s; simpl.
  - intros [= <-]. by exists [].
  - destruct s as [|c s]; [discriminate|].
    destruct (Ascii.eqb (toLower c) k); [|discriminate].
    intros H. destruct (IH s H) as (p & Hp). exists (c :: p). simpl. by rewrite Hp.
Qed.

(** After the keyword and its white space a trimmed line always has a
    name. *)
Lemma keyword_name_nonempty (kw rawLine : string) :
  test kw (trim rawLine) = true ->
  trim (replace kw (trim rawLine)) <> EmptyString.
Proof.
  unfold test, replace, matchKeyword.
  destruct (matchWord kw (trim rawLine)) as [[|c r]|] eqn:E; try done.
  destruct (isWhiteSpace c) eqn:Hc; [|done]. intros _. simpl.
  destruct (matchWord_suffix _ _ _ E) as (p & Hp). simpl in Hp.
  destruct (chars r) as [|d r0 _] eqn:Er using rev_ind.
  - assert (Hlast : chars (trim rawLine) = p ++ [c]) by done.
    apply trim_last in Hlast. congruence.
  - assert (Hlast : chars (trim rawLine) = (p ++ c :: r0) ++ [d]).
    { rewrite Hp. by rewrite <- app_assoc. }
    apply trim_last in Hlast.
    intros H. apply (f_equal chars) in H. rewrite chars_trim, chars_trimStart in H.
    rewrite dropWS_idem, Er in H. rewrite (dropWS_mid r0 [] d Hlast) in H.
    fold (dropWSEnd (dropWS r0 ++ [d])) in H. rewrite dropWSEnd_snoc in H by done.
    simpl in H. by destruct (dropWS r0).
Qed.

(** X8. The guard against an empty block name never fires in a parse: on a
    trimmed line the keyword and its white space are always followed by a
    name, so no line processed by [parseAuthorDSL] fails with 'Empty block
    name not allowed'. A line that is the bare keyword is read as a
    statement and fails for its missing colon. *)
Theorem empty_block_name_unreachable (pm : option PluginManager) (st : Parser.State)
    (n : nat) (rawLine : string) (e : exn) :
  Parser.processLine pm st n rawLine = Err e ->
  forall lineNumber line,
    e <> DSLParseError "Empty block name not allowed" lineNumber line.
Proof.
  assert (Hassign : forall st0 k v, Parser.assignTop st0 k v = Err e ->
            forall lineNumber line,
              e <> DSLParseError "Empty block name not allowed" lineNumber line).
  { intros st0 k v. unfold Parser.assignTop. destruct (last _) as [current|].
    - by destruct (Parser.assignValue current k v).
    - intros [= <-] ? ?. discriminate. }
  unfold Parser.processLine.
  destruct (Parser.inMultiline st).
  { destruct (Parser.handleMultilineContent _ _) as [[] buffer]; [|discriminate].
    destruct (Parser.assignTop _ _ _) eqn:E; simpl; [discriminate| |discriminate].
    intros [= <-]. exact (Hassign _ _ _ E). }
  destruct (_ || _); [discriminate|].
  destruct (test "begin" (trim rawLine)) eqn:Eb.
  { pose proof (keyword_name_nonempty _ _ Eb) as Hname.
    destruct (match pm with Some _ => _ | None => _ end) eqn:Eh; simpl; [| |discriminate].
    - unfold Parser.handleBlockStart.
      destruct (String.eqb _ _) eqn:E; [by apply String.eqb_eq in E|].
      destruct (last _); [|simpl; intros [= <-] ? ?; discriminate].
      destruct (if negb (truthy _) then _ else _) as [current'|]; simpl; [|discriminate].
      destruct (get _ _) as [| | | | | |fields|]; simpl; try discriminate;
        try (intros [= <-] ? ?; discriminate).
      destruct (get fields "push"); simpl; try discriminate; intros [= <-] ? ?; discriminate.
    - intros [= <-] ? ?. destruct pm as [m|]; [|discriminate].
      apply blockHookLoop_Err in Eh. destruct Eh as (? & ? & ? & ->). discriminate. }
  destruct (test "end" (trim rawLine)) eqn:Ee.
  { pose proof (keyword_name_nonempty _ _ Ee) as Hname.
    destruct (match pm with Some _ => _ | None => _ end) eqn:Eh; simpl; [| |discriminate].
    - unfold Parser.handleBlockEnd.
      destruct (String.eqb _ _) eqn:E; [by apply String.eqb_eq in E|].
      destruct (last _); [|simpl; intros [= <-] ? ?; discriminate].
      destruct (negb _); simpl; [intros [= <-] ? ?; discriminate | discriminate].
    - intros [= <-] ? ?. destruct pm as [m|]; [|discriminate].
      apply blockHookLoop_Err in Eh. destruct Eh as (? & ? & ? & ->). discriminate. }
  destruct (Parser.parseKeyValue _ _) as [[[key val] type]| |] eqn:Ekv; simpl;
    [| |discriminate].
  2:{ intros [= <-] ? ?. revert Ekv. unfold Parser.parseKeyValue.
      repeat (match goal with
              | |- context [if ?b then _ else _] => destruct b
              | |- context [match ?l with [] => _ | _ :: _ => _ end] => destruct l
              end); first [discriminate | intros [= <-]; discriminate]. }
  destruct (startsWith val tripleQuote); [discriminate|].
  unfold Parser.assignKeyValue. destruct pm as [m|].
  - destruct (match type with Some _ => _ | None => _ end) as [pv| |] eqn:Ep; simpl;
      [| |discriminate].
    + destruct (Manager.onKeyValue _ _ _ _) as [r| |] eqn:Eo; simpl;
        [apply Hassign| |discriminate].
      intros [= <-] ? ?. apply onKeyValueLoop_Err in Eo. destruct Eo as (? & ? & ? & ->).
      discriminate.
    + intros [= <-] ? ?. destruct type; [|discriminate].
      apply processValue_Err in Ep. destruct Ep as (? & ? & ? & ->). discriminate.
  - destruct type; apply Hassign.
Qed.

Lemma empty_block_name_unreachable_witness :
  Parser.processLine None Parser.initial 1 "  Begin  "
  = Err (DSLParseError "Invalid line format - missing colon" (Some 1%nat) (Some "Begin"%string))
  /\ forall lineNumber line,
       DSLParseError "Invalid line format - missing colon" (Some 1%nat) (Some "Begin"%string)
       <> DSLParseError "Empty block name not allowed" lineNumber line.
Proof.
  split; [reflexivity|].
  apply (empty_block_name_unreachable None Parser.initial 1 "  Begin  "). reflexivity.
Defined.

(** X9. Begin on a key that holds a value which is truthy and not a list
    (a non-empty string, a typed value) is not reported as a parse error:
    the line fails with the [TypeError] of [push]. On a list, or where
    nothing truthy is stored, it opens the block, and the list under the
    name gets the new empty block as its last element. *)
Theorem begin_on_scalar (st : Parser.State) (n : nat) (name : string) (current : object) :
  trim name = name ->
  name <> EmptyString ->
  Parser.inMultiline st = false ->
  last (Parser.stack st) = Some current ->
  Parser.processLine None st n ("Begin " +:+ name)
  = match blockList current name with
    | Some items =>
        Ok (Parser.withStack st
              (Parser.setTop (Parser.stack st)
                 (defineOwn current name (VArr (items ++ [VObj []]))) ++ [[]])
              (Parser.blockNames st ++ [name]))
    | None => if hasPushMethod (get current name) then OutOfModel else Err pushTypeError
    end.
Proof.
  intros Htrim Hne Hin Hlast. unfold Parser.processLine. rewrite Hin.
  rewrite (trim_prefixed "Begin " name "B" "egin ") by done.
  assert (Hkw : matchKeyword "begin" ("Begin " +:+ name) = Some name).
  { unfold matchKeyword. simpl. by rewrite trimStart_trimmed. }
  unfold test. rewrite Hkw. simpl.
  assert (Hname : trim (replace "begin" ("Begin " +:+ name)) = name).
  { unfold replace. rewrite Hkw. exact Htrim. }
  destruct (blockList current name) as [items|] eqn:Hlist.
  - rewrite (handleBlockStart_blockList _ n _ _ current items Hlast);
      rewrite Hname; done.
  - unfold Parser.handleBlockStart. cbv zeta. rewrite Hname.
    destruct (String.eqb name EmptyString) eqn:E; [by apply String.eqb_eq in E|].
    rewrite Hlast. unfold blockList in Hlist. unfold hasPushMethod.
    destruct (truthy (get current name)) eqn:Ht; simpl.
    + destruct (get current name) as [| | | | | |fields|] eqn:Hget; cbv beta iota in Hlist;
        rewrite ?Ht in Hlist; try discriminate; try done.
      by destruct (get fields "push").
    + destruct (get current name) eqn:Hget; cbv beta iota in Hlist;
        rewrite ?Ht in Hlist; discriminate.
Qed.

Lemma begin_on_scalar_witness :
  Parser.processLines None ["P: x"; "Begin P"]%string 1 Parser.initial = Err pushTypeError
  /\ Parser.processLine None
       {| Parser.stack := [[("P", VStr "x")]]%string; Parser.blockNames := [];
          Parser.inMultiline := false; Parser.multilineKey := None;
          Parser.multilineBuffer := [] |} 2 ("Begin " +:+ "P")
     = match blockList [("P", VStr "x")]%string "P" with
       | Some items =>
           Ok (Parser.withStack
                 {| Parser.stack := [[("P", VStr "x")]]%string; Parser.blockNames := [];
                    Parser.inMultiline := false; Parser.multilineKey := None;
                    Parser.multilineBuffer := [] |}
                 (Parser.setTop [[("P", VStr "x")]]%string
                    (defineOwn [("P", VStr "x")]%string "P" (VArr (items ++ [VObj []]))) ++ [[]])
                 ([] ++ ["P"%string]))
       | None =>
           if hasPushMethod (get [("P", VStr "x")]%string "P")
           then OutOfModel else Err pushTypeError
       end.
Proof.
  split; [reflexivity|].
  apply (begin_on_scalar _ 2 "P" [("P", VStr "x")]%string);
    [reflexivity | discriminate | reflexivity | reflexivity].
Defined.

End BlockNames.

(** ** A manager without parse hooks *)

Section Transparent.

Variable pm : PluginManager.
Hypothesis no_hooks : parserPlugins pm = [].

Lemma processLine_no_hooks (st : Parser.State) (n : nat) (rawLine : string) :
  untyped rawLine ->
  Parser.processLine (Some pm) st n rawLine = Parser.processLine None st n rawLine.
Proof.
  intros Hu. unfold Parser.processLine.
  destruct (Parser.inMultiline st); [done|].
  destruct (_ || _); [done|].
  unfold Manager.onBlockStart, Manager.onBlockEnd. rewrite no_hooks. simpl.
  destruct (test "begin" _); [done|].
  destruct (test "end" _); [done|].
  destruct (Parser.parseKeyValue _ _) as [[[key val] type]| |] eqn:E; [|done..]. simpl.
  rewrite (Hu _ _ _ _ E).
  destruct (startsWith val tripleQuote); [done|].
  unfold Parser.assignKeyValue, Manager.onKeyValue. by rewrite no_hooks.
Qed.

Lemma processLines_no_hooks (lines : list string) :
  Forall untyped lines ->
  forall n st, Parser.processLines (Some pm) lines n st = Parser.processLines None lines n st.
Proof.
  induction 1 as [|l lines Hl _ IH]; intros n st; simpl; [done|].
  rewrite (processLine_no_hooks st n l Hl).
  destruct (Parser.processLine None st n l); simpl; [apply IH | done..].
Qed.

(** X10. A plugin manager without parse-hook plugins is not seen by a parse
    of input without type annotations, whatever type, validation and
    formatter plugins it holds: the result, or the failure, is that of the
    parse without a plugin manager. *)
Theorem no_hooks_no_types_same_parse (input : string) :
  Forall untyped (splitLines input) ->
  Parser.parseAuthorDSL input (Some pm) = Parser.parseAuthorDSL input None.
Proof.
  intros Hu. unfold Parser.parseAuthorDSL.
  destruct (Parser.validateInput input); [|done..]. simpl.
  unfold Manager.beforeParse. rewrite no_hooks. simpl.
  unfold Parser.parseEngine. rewrite (processLines_no_hooks _ Hu).
  destruct (Parser.processLines None _ _ _) as [st| |]; [|done..]. simpl.
  unfold Parser.finish, Manager.afterParse. by rewrite no_hooks.
Qed.

End Transparent.

Lemma no_hooks_no_types_same_parse_witness :
  Parser.parseAuthorDSL Samples.profileInput (Some Samples.twoTypePlugins)
  = Parser.parseAuthorDSL Samples.profileInput None.
Proof.
  apply (no_hooks_no_types_same_parse Samples.twoTypePlugins); [reflexivity|].
  repeat constructor; intros n key value type H; vm_compute in H; congruence.
Defined.

(** ** The registry *)

Section Sorting.

Variable prio : Plugin -> Z.

Lemma insertByPriority_perm (x : Plugin) (l : list Plugin) :
  Permutation (Manager.insertByPriority prio x l) (x :: l).
Proof.
  induction l as [|y l IH]; simpl; [done|].
  destruct (prio y - prio x <=? 0); [done|].
  rewrite IH. apply perm_swap.
Qed.

Lemma sortByPriority_perm (l : list Plugin) :
  Permutation (Manager.sortByPriority prio l) l.
Proof.
  induction l as [|x l IH]; simpl; [done|].
  rewrite insertByPriority_perm. by constructor.
Qed.

Lemma insertByPriority_sorted (x : Plugin) (l : list Plugin) :
  StronglySorted (fun a b => prio b <= prio a) l ->
  StronglySorted (fun a b => prio b <= prio a) (Manager.insertByPriority prio x l).
Proof.
  induction 1 as [|y l Hs IH Hall]; simpl.
  - constructor; constructor.
  - destruct (prio y - prio x <=? 0) eqn:E.
    + apply Z.leb_le in E. constructor; [by constructor|].
      constructor; [lia|]. eapply List.Forall_impl; [|exact Hall]. simpl. intros. lia.
    + apply Z.leb_gt in E. constructor; [exact IH|].
      eapply Permutation_Forall; [symmetry; apply insertByPriority_perm|].
      constructor; [lia | exact Hall].
Qed.

Lemma sortByPriority_sorted (l : list Plugin) :
  StronglySorted (fun a b => prio b <= prio a) (Manager.sortByPriority prio l).
Proof.
  induction l as [|x l IH]; simpl; [constructor | by apply insertByPriority_sorted].
Qed.

Lemma insertByPriority_stable (k : Z) (x : Plugin) (l : list Plugin) :
  List.filter (fun p => prio p =? k) (Manager.insertByPriority prio x l)
  = List.filter (fun p => prio p =? k) (x :: l).
Proof.
  induction l as [|y l IH]; simpl; [done|].
  destruct (prio y - prio x <=? 0) eqn:E; [done|].
  apply Z.leb_gt in E. simpl. rewrite IH. simpl.
  destruct (prio x =? k) eqn:Ex; [|done].
  apply Z.eqb_eq in Ex.
  destruct (prio y =? k) eqn:Ey; [apply Z.eqb_eq in Ey; lia | done].
Qed.

Lemma sortByPriority_stable (k : Z) (l : list Plugin) :
  List.filter (fun p => prio p =? k) (Manager.sortByPriority prio l)
  = List.filter (fun p => prio p =? k) l.
Proof.
  induction l as [|x l IH]; simpl; [done|].
  rewrite insertByPriority_stable. simpl. by rewrite IH.
Qed.

Lemma sortByPriority_sortedFrom (l : list Plugin) :
  sortedFrom prio (Manager.sortByPriority prio l) l.
Proof.
  split; [apply sortByPriority_perm|].
  split; [apply sortByPriority_sorted | intros k; apply sortByPriority_stable].
Qed.

End Sorting.

Section Registry.

Variables (pm : PluginManager) (p : Plugin) (o : PluginOptions).

Lemma register_validationPlugins :
  validationPlugins (fst (Manager.register pm p o))
  = if Manager.isValidationPlugin p
    then Manager.sortByPriority (Manager.priorityOf (fst (Manager.register pm p o)))
           (validationPlugins pm ++ [p])
    else validationPlugins pm.
Proof. unfold Manager.register. by_categories p. Qed.

Lemma register_typePlugins :
  typePlugins (fst (Manager.register pm p o))
  = if Manager.isTypePlugin p
    then foldl (fun m type => <[type := p]> m) (typePlugins pm)
           (default [] (supportedTypes p))
    else typePlugins pm.
Proof. unfold Manager.register. by_categories p. Qed.

(** X11. Registration keeps the validator list and the parse-hook list in
    order: after [register] of a plugin of the category, the list holds the
    plugins it held and the new one, by non-increasing priority as the
    manager now knows them, plugins of equal priority in their earlier
    order and the new one after them. *)
Theorem register_keeps_order :
  let pm' := fst (Manager.register pm p o) in
  (Manager.isValidationPlugin p = true ->
   sortedFrom (Manager.priorityOf pm') (validationPlugins pm') (validationPlugins pm ++ [p]))
  /\ (Manager.isParserPlugin p = true ->
      sortedFrom (Manager.priorityOf pm') (parserPlugins pm') (parserPlugins pm ++ [p])).
Proof.
  split; intros H.
  - rewrite register_validationPlugins, H. apply sortByPriority_sortedFrom.
  - rewrite register_parserPlugins, H. apply sortByPriority_sortedFrom.
Qed.

End Registry.

(** A validator of priority 1 registered after validators of priorities 1
    and 5: it goes last, after the earlier one of its priority. *)
Lemma register_keeps_order_witness :
  let pm' := fst (Manager.register Samples.prioritized Samples.throwC (Samples.withPriority 1)) in
  sortedFrom (Manager.priorityOf pm') (validationPlugins pm')
    (validationPlugins Samples.prioritized ++ [Samples.throwC])
  /\ map ident (validationPlugins pm') = [12; 11; 13]%nat.
Proof.
  split; [|vm_compute; reflexivity].
  apply (proj1 (register_keeps_order Samples.prioritized Samples.throwC
                  (Samples.withPriority 1))).
  reflexivity.
Defined.

Section Unregister.

Lemma unregister_plugins_any (pm : PluginManager) (n : string) :
  plugins (fst (Manager.unregister pm n)) = delete n (plugins pm).
Proof.
  unfold Manager.unregister. destruct (plugins pm !! n) as [[p o]|] eqn:E.
  - by_categories p.
  - simpl. symmetry. by apply delete_id.
Qed.

Lemma unregister_lists (pm : PluginManager) (n : string) (p : Plugin) (o : PluginOptions) :
  plugins pm !! n = Some (p, o) ->
  let pm' := fst (Manager.unregister pm n) in
  validationPlugins pm'
  = (if Manager.isValidationPlugin p then Manager.removeFirst p (validationPlugins pm)
     else validationPlugins pm)
  /\ formatterPlugins pm'
     = (if Manager.isFormatterPlugin p then Manager.removeFirst p (formatterPlugins pm)
        else formatterPlugins pm)
  /\ parserPlugins pm'
     = (if Manager.isParserPlugin p then Manager.removeFirst p (parserPlugins pm)
        else parserPlugins pm)
  /\ typePlugins pm'
     = (if Manager.isTypePlugin p
        then foldl (fun m type => delete type m) (typePlugins pm)
               (default [] (supportedTypes p))
        else typePlugins pm).
Proof.
  intros E. unfold Manager.unregister. rewrite E. by_categories p.
Qed.

Lemma removeFirst_In (p q : Plugin) (l : list Plugin) :
  In q l -> ident q <> ident p -> In q (Manager.removeFirst p l).
Proof.
  induction l as [|x l IH]; simpl; [done|]. intros [->|H] Hne.
  - destruct (ident q =? ident p)%nat eqn:E; [by apply Nat.eqb_eq in E | by left].
  - destruct (ident x =? ident p)%nat; [done | right; by apply IH].
Qed.

Lemma removeFirst_incl (p q : Plugin) (l : list Plugin) :
  In q (Manager.removeFirst p l) -> In q l.
Proof.
  induction l as [|x l IH]; simpl; [done|].
  destruct (ident x =? ident p)%nat; [by right|]. intros [->|H]; [by left | right; by apply IH].
Qed.

Lemma removeFirst_gone (p q : Plugin) (l : list Plugin) :
  List.NoDup (map ident l) -> In q (Manager.removeFirst p l) -> ident q <> ident p.
Proof.
  induction l as [|x l IH]; simpl; [done|]. intros Hnd. inversion Hnd as [|? ? Hx Hl]; subst.
  destruct (ident x =? ident p)%nat eqn:E.
  - apply Nat.eqb_eq in E. intros Hq Heq. apply Hx. rewrite E, <- Heq. by apply in_map.
  - apply Nat.eqb_neq in E. intros [<-|H]; [done | by apply IH].
Qed.

(** X12. Unregistering takes the plugin out of every category list in
    which every plugin object occurs once: no plugin with its identity is
    left in the validator, formatter and parse-hook lists, so it takes no
    part in a later validate, format or parse; the other plugins stay. *)
Theorem unregister_removes (pm : PluginManager) (n : string) (p : Plugin)
    (o : PluginOptions) :
  plugins pm !! n = Some (p, o) ->
  let pm' := fst (Manager.unregister pm n) in
  (Manager.isValidationPlugin p = true ->
   List.NoDup (map ident (validationPlugins pm)) ->
   forall q, In q (validationPlugins pm') <-> In q (validationPlugins pm) /\ ident q <> ident p)
  /\ (Manager.isFormatterPlugin p = true ->
      List.NoDup (map ident (formatterPlugins pm)) ->
      forall q, In q (formatterPlugins pm') <-> In q (formatterPlugins pm) /\ ident q <> ident p)
  /\ (Manager.isParserPlugin p = true ->
      List.NoDup (map ident (parserPlugins pm)) ->
      forall q, In q (parserPlugins pm') <-> In q (parserPlugins pm) /\ ident q <> ident p)
  /\ Manager.isRegistered pm' n = false.
Proof.
  intros E pm'. destruct (unregister_lists pm n p o E) as (Hv & Hf & Hp & _).
  fold pm' in Hv, Hf, Hp.
  assert (Hall : forall l, List.NoDup (map ident l) ->
            forall q, In q (Manager.removeFirst p l) <-> In q l /\ ident q <> ident p).
  { intros l Hnd q. split.
    - intros H. split; [by apply removeFirst_incl in H | by apply (removeFirst_gone p q l)].
    - intros [H1 H2]. by apply removeFirst_In. }
  split; [|split; [|split]].
  - intros H Hnd. rewrite Hv, H. by apply Hall.
  - intros H Hnd. rewrite Hf, H. by apply Hall.
  - intros H Hnd. rewrite Hp, H. by apply Hall.
  - unfold Manager.isRegistered, pm'. rewrite unregister_plugins_any, lookup_delete_eq.
    apply bool_decide_eq_false. by intros [? ?].
Qed.

Lemma unregister_removes_witness :
  let pm := Samples.registerAll [Samples.warnA; Samples.warnB] in
  let pm' := fst (Manager.unregister pm "a") in
  (forall q, In q (validationPlugins pm')
             <-> In q (validationPlugins pm) /\ ident q <> ident Samples.warnA)
  /\ map ident (validationPlugins pm') = [12]%nat.
Proof.
  split; [|vm_compute; reflexivity].
  apply (proj1 (unregister_removes (Samples.registerAll [Samples.warnA; Samples.warnB])
                  "a" Samples.warnA (Manager.defaultOptions Manager.noOptions)
                  ltac:(vm_compute; reflexivity))).
  - reflexivity.
  - vm_compute. repeat constructor; simpl; intuition discriminate.
Defined.



End Unregister.

Section NameMap.

(** X14. On the name map [register] is an insertion and [unregister] a
    removal: the plugin just registered is the one [getPlugin] returns for
    its name, a name just unregistered is not registered, and in both
    cases every other name is answered as before. *)
Theorem name_map_round_trip (pm : PluginManager) (p : Plugin) (o : PluginOptions)
    (n : string) :
  Manager.getPlugin (fst (Manager.register pm p o)) (Manager.pluginName p) = Some p
  /\ Manager.isRegistered (fst (Manager.register pm p o)) (Manager.pluginName p) = true
  /\ Manager.isRegistered (fst (Manager.unregister pm n)) n = false
  /\ (forall n', n' <> Manager.pluginName p ->
        Manager.getPlugin (fst (Manager.register pm p o)) n' = Manager.getPlugin pm n')
  /\ (forall n', n' <> n ->
        Manager.getPlugin (fst (Manager.unregister pm n)) n' = Manager.getPlugin pm n').
Proof.
  unfold Manager.getPlugin, Manager.isRegistered.
  rewrite register_plugins, unregister_plugins_any. repeat split.
  - by rewrite lookup_insert_eq.
  - rewrite lookup_insert_eq. by apply bool_decide_eq_true.
  - rewrite lookup_delete_eq. apply bool_decide_eq_false. by intros [? ?].
  - intros n' Hn'. by rewrite lookup_insert_ne.
  - intros n' Hn'. by rewrite lookup_delete_ne.
Qed.

End NameMap.

Section Formats.

Lemma existsb_eqb_In (f : string) (l : list string) :
  existsb (String.eqb f) l = true <-> In f l.
Proof.
  rewrite existsb_exists. split.
  - intros (x & Hx & E). apply String.eqb_eq in E. by subst.
  - intros H. exists f. split; [done | apply String.eqb_refl].
Qed.

Lemma dedupe_spec (l acc : list string) :
  List.NoDup acc ->
  List.NoDup (foldl (fun formats f =>
                       if existsb (String.eqb f) formats then formats else formats ++ [f])
                acc l)
  /\ forall t,
       In t (foldl (fun formats f =>
                      if existsb (String.eqb f) formats then formats else formats ++ [f])
               acc l)
       <-> In t acc \/ In t l.
Proof.
  revert acc. induction l as [|f l IH]; intros acc Hnd; simpl.
  - split; [done | intros t; tauto].
  - destruct (existsb (String.eqb f) acc) eqn:E.
    + apply existsb_eqb_In in E. destruct (IH acc Hnd) as [H1 H2]. split; [done|].
      intros t. rewrite H2. split; [tauto|]. intros [H|[<-|H]]; tauto.
    + assert (Hf : ~ In f acc).
      { intros H. apply existsb_eqb_In in H. congruence. }
      assert (Hnd' : List.NoDup (acc ++ [f])).
      { apply NoDup_app_remove_l with (l := []). simpl.
        apply (Permutation_NoDup (l := f :: acc)); [|by constructor].
        apply Permutation_cons_append. }
      destruct (IH _ Hnd') as [H1 H2]. split; [done|].
      intros t. rewrite H2, in_app_iff. simpl. tauto.
Qed.

Lemma supports_In (t : string) (p : Plugin) :
  Manager.supports t p = true <-> In t (default [] (supportedFormats p)).
Proof. unfold Manager.supports. apply existsb_eqb_In. Qed.

(** X15. [getAvailableFormats] lists every format tag once, and it lists
    exactly the tags [formatData] finds a formatter for: a call of
    [formatData] fails with 'No formatter plugin found for format' if and
    only if the requested tag is not listed. *)
Theorem available_formats (pm : PluginManager) :
  List.NoDup (Manager.getAvailableFormats pm)
  /\ (forall t, In t (Manager.getAvailableFormats pm)
                <-> exists p, In p (formatterPlugins pm) /\ Manager.supports t p = true)
  /\ (forall t data options,
        ~ In t (Manager.getAvailableFormats pm)
        <-> Manager.formatData pm data t options
            = Err (PlainError ("No formatter plugin found for format: " +:+ t))).
Proof.
  unfold Manager.getAvailableFormats.
  destruct (dedupe_spec
              (concat (map (fun p => default [] (supportedFormats p)) (formatterPlugins pm)))
              [] (List.NoDup_nil _)) as [Hnd Hin].
  assert (Hlisted : forall t,
            In t (foldl (fun formats f =>
                           if existsb (String.eqb f) formats then formats else formats ++ [f])
                    [] (concat (map (fun p => default [] (supportedFormats p))
                                  (formatterPlugins pm))))
            <-> exists p, In p (formatterPlugins pm) /\ Manager.supports t p = true).
  { intros t. rewrite Hin. simpl. rewrite in_concat. split.
    - intros [[]|(x & Hx & Ht)]. apply in_map_iff in Hx. destruct Hx as (p & <- & Hp).
      exists p. split; [done | by apply supports_In].
    - intros (p & Hp & Hs). right. exists (default [] (supportedFormats p)).
      split; [|by apply supports_In].
      exact (in_map (fun p => default [] (supportedFormats p)) _ p Hp). }
  split; [exact Hnd|]. split; [exact Hlisted|].
  intros t data options. rewrite Hlisted. unfold Manager.formatData.
  destruct (List.find (Manager.supports t) (formatterPlugins pm)) as [p|] eqn:E.
  - apply find_some in E. split.
    + intros H. destruct H. by exists p.
    + unfold Manager.guarded, Manager.createPluginError.
      destruct (match format p with Some _ => _ | None => _ end); discriminate.
  - split; [done|]. intros _ (p & Hp & Hs).
    by rewrite (find_none _ _ E p Hp) in Hs.
Qed.

End Formats.

Section Invariant.

Lemma foldl_insert_lookup (p q : Plugin) (l : list string) (m : gmap string Plugin)
    (t : string) :
  foldl (fun m type => <[type := p]> m) m l !! t = Some q ->
  (q = p /\ In t l) \/ m !! t = Some q.
Proof.
  revert m. induction l as [|a l IH]; intros m; simpl; [by right|].
  intros H. destruct (IH _ H) as [[-> Hin]|H']; [left; tauto|].
  destruct (decide (a = t)) as [->|Hne].
  - rewrite lookup_insert_eq in H'. injection H' as <-. left. tauto.
  - rewrite lookup_insert_ne in H' by done. by right.
Qed.

Lemma foldl_delete_lookup (q : Plugin) (l : list string) (m : gmap string Plugin)
    (t : string) :
  foldl (fun m type => delete type m) m l !! t = Some q -> m !! t = Some q.
Proof.
  revert m. induction l as [|a l IH]; intros m; simpl; [done|].
  intros H. apply IH in H. apply lookup_delete_Some in H. tauto.
Qed.

Lemma removeFirst_Forall (P : Plugin -> Prop) (p : Plugin) (l : list Plugin) :
  Forall P l -> Forall P (Manager.removeFirst p l).
Proof.
  intros H. apply List.Forall_forall. intros q Hq. apply removeFirst_incl in Hq.
  rewrite List.Forall_forall in H. by apply H.
Qed.

Lemma sortByPriority_Forall (P : Plugin -> Prop) (prio : Plugin -> Z) (l : list Plugin) :
  Forall P l -> Forall P (Manager.sortByPriority prio l).
Proof.
  intros H. eapply Permutation_Forall; [|exact H]. symmetry. apply sortByPriority_perm.
Qed.

Lemma wellFormed_create : wellFormed Manager.create.
Proof.
  split; simpl.
  - intros n p o. by rewrite lookup_empty.
  - intros t p. by rewrite lookup_empty.
  - constructor.
  - constructor.
  - constructor.
Qed.

Lemma wellFormed_register (pm : PluginManager) (p : Plugin) (o : PluginOptions) :
  wellFormed pm -> wellFormed (fst (Manager.register pm p o)).
Proof.
  intros [Hn Ht Hv Hf Hp]. split.
  - intros n q o'. rewrite register_plugins.
    destruct (decide (Manager.pluginName p = n)) as [<-|Hne].
    + rewrite lookup_insert_eq. by intros [= <- _].
    + rewrite lookup_insert_ne by done. apply Hn.
  - intros t q. rewrite register_typePlugins.
    destruct (Manager.isTypePlugin p) eqn:E; [|apply Ht].
    intros H. apply foldl_insert_lookup in H. destruct H as [[-> Hin]|H]; [done | by apply Ht].
  - rewrite register_validationPlugins.
    destruct (Manager.isValidationPlugin p) eqn:E; [|done].
    apply sortByPriority_Forall, Forall_app. split; [done | by constructor].
  - rewrite register_formatterPlugins.
    destruct (Manager.isFormatterPlugin p) eqn:E; [|done].
    apply Forall_app. split; [done | by constructor].
  - rewrite register_parserPlugins.
    destruct (Manager.isParserPlugin p) eqn:E; [|done].
    apply sortByPriority_Forall, Forall_app. split; [done | by constructor].
Qed.

Lemma wellFormed_unregister (pm : PluginManager) (n : string) :
  wellFormed pm -> wellFormed (fst (Manager.unregister pm n)).
Proof.
  intros Hwf. destruct (plugins pm !! n) as [[p o]|] eqn:E.
  2:{ unfold Manager.unregister. by rewrite E. }
  destruct Hwf as [Hn Ht Hv Hf Hp].
  destruct (unregister_lists pm n p o E) as (Hlv & Hlf & Hlp & Hlt). split.
  - intros n' q o'. rewrite unregister_plugins_any. intros H.
    apply lookup_delete_Some in H. apply (Hn n' q o'). tauto.
  - intros t q. rewrite Hlt. destruct (Manager.isTypePlugin p); [|apply Ht].
    intros H. apply foldl_delete_lookup in H. by apply Ht.
  - rewrite Hlv. destruct (Manager.isValidationPlugin p); [by apply removeFirst_Forall | done].
  - rewrite Hlf. destruct (Manager.isFormatterPlugin p); [by apply removeFirst_Forall | done].
  - rewrite Hlp. destruct (Manager.isParserPlugin p); [by apply removeFirst_Forall | done].
Qed.

(** X16. What every manager built by [register] and [unregister] from a new
    one satisfies: a plugin is filed under its own name; a handler in the
    type map is a type plugin that declares the tag; the validator,
    formatter and parse-hook lists hold only plugins with the members of
    their category, so no dispatch meets a missing method. *)
Theorem reachable_wellFormed (pm : PluginManager) : reachable pm -> wellFormed pm.
Proof.
  induction 1 as [|pm p o _ IH|pm n _ IH].
  - apply wellFormed_create.
  - by apply wellFormed_register.
  - by apply wellFormed_unregister.
Qed.

Lemma reachable_wellFormed_witness : wellFormed Samples.twoTypePlugins.
Proof.
  apply reachable_wellFormed. unfold Samples.twoTypePlugins.
  apply reachable_register, reachable_register, reachable_create.
Defined.

End Invariant.

(** ** Reading a parsed document *)

Section Entries.




Lemma getOwn_In (o : object) (k : string) (v : value) : getOwn o k = Some v -> In (k, v) o.
Proof.
  induction o as [|[k' v'] o IH]; simpl; [discriminate|].
  destruct (String.eqb k' k) eqn:E.
  - apply String.eqb_eq in E. subst. intros [= ->]. by left.
  - intros H. right. by apply IH.
Qed.





End Entries.

Section Duplicates.

Lemma indexOfArray_ge (l : list string) (x : string) : -1 <= indexOfArray l x.
Proof.
  induction l as [|y l IH]; simpl; [lia|].
  destruct (String.eqb y x); [lia|]. destruct (indexOfArray l x =? -1); lia.
Qed.

Lemma indexOfArray_fresh (pre b : list string) (x : string) :
  ~ In x pre -> indexOfArray (pre ++ x :: b) x = Z.of_nat (length pre).
Proof.
  induction pre as [|y pre IH]; simpl.
  - intros _. by rewrite String.eqb_refl.
  - intros H. destruct (String.eqb y x) eqn:E; [apply String.eqb_eq in E; tauto|].
    rewrite IH by tauto. destruct (Z.of_nat (length pre) =? -1) eqn:E'; [|lia].
    apply Z.eqb_eq in E'. lia.
Qed.

Lemma indexOfArray_old (pre s : list string) (x : string) :
  In x pre -> 0 <= indexOfArray (pre ++ s) x < Z.of_nat (length pre).
Proof.
  induction pre as [|y pre IH]; simpl; [done|]. intros H.
  destruct (String.eqb y x) eqn:E; [lia|].
  apply String.eqb_neq in E. destruct H as [H|H]; [done|].
  specialize (IH H). destruct (indexOfArray (pre ++ s) x =? -1) eqn:E'; [|lia].
  apply Z.eqb_eq in E'. lia.
Qed.

Lemma duplicates_nil (L : list string) (suf pre : list string) :
  L = pre ++ suf ->
  filterFrom (fun key index => negb (indexOfArray L key =? index)) suf
    (Z.of_nat (length pre)) = []
  <-> forall a x b, suf = a ++ x :: b -> ~ In x (pre ++ a).
Proof.
  revert pre. induction suf as [|y suf IH]; intros pre HL; simpl.
  - split; [|done]. intros _ a x b H. by destruct a.
  - assert (HL' : L = (pre ++ [y]) ++ suf) by (rewrite HL; by rewrite <- app_assoc).
    specialize (IH (pre ++ [y]) HL').
    replace (Z.of_nat (length (pre ++ [y]))) with (Z.of_nat (length pre) + 1) in IH
      by (rewrite length_app; simpl; lia).
    destruct (in_dec string_dec y pre) as [Hin|Hnin].
    + pose proof (indexOfArray_old pre (y :: suf) y Hin) as Hlt. rewrite <- HL in Hlt.
      destruct (indexOfArray L y =? Z.of_nat (length pre)) eqn:E;
        [apply Z.eqb_eq in E; lia|]. simpl.
      split; [discriminate|]. intros H. destruct (H [] y suf eq_refl).
      by rewrite app_nil_r.
    + pose proof (indexOfArray_fresh pre suf y Hnin) as Heq. rewrite <- HL in Heq.
      rewrite Heq, Z.eqb_refl. simpl. rewrite IH. split.
      * intros H a x b Hs. destruct a as [|z a]; simpl in Hs.
        -- injection Hs as <- _. by rewrite app_nil_r.
        -- injection Hs as <- ->. specialize (H a x b eq_refl).
           by rewrite <- app_assoc in H.
      * intros H a x b ->. specialize (H (y :: a) x b eq_refl).
        by rewrite <- app_assoc.
Qed.

Lemma NoDup_decompose (L : list string) :
  List.NoDup L <-> forall a x b, L = a ++ x :: b -> ~ In x a.
Proof.
  split.
  - intros H a x b ->. apply NoDup_remove_2 in H. intros Hin. apply H.
    apply in_or_app. by left.
  - induction L as [|x L IH] using rev_ind; [constructor|]. intros H.
    apply NoDup_app_remove_l with (l := []). simpl.
    apply (Permutation_NoDup (l := x :: L)); [apply Permutation_cons_append|].
    constructor.
    + apply (H L x []). done.
    + apply IH. intros a y b ->. apply (H a y (b ++ [x])). by rewrite <- app_assoc.
Qed.

(** X18. The built-in validation of a document: without a plugin manager
    it never fails; it warns of a missing author exactly when neither
    [Author] nor [author] holds a truthy value, and of duplicate keys
    exactly when two keys of the document agree after [toLowerCase]. With
    a plugin manager the validators' warnings follow these, and the call
    fails exactly when [validateData] does. *)
Theorem validateParsedData_spec (data : object) :
  exists ws,
    Parser.validateParsedData data None = Ok ws
    /\ (In "Warning: No author name specified"%string ws
        <-> truthy (get data "Author") = false /\ truthy (get data "author") = false)
    /\ ((exists w, In w ws /\ startsWith w "Warning: Potential duplicate keys" = true)
        <-> ~ List.NoDup (map toLowerCase (keys data)))
    /\ (forall pm,
          Parser.validateParsedData data (Some pm)
          = (pluginWarnings ← Manager.validateData pm data; Ok (ws ++ pluginWarnings))).
Proof.
  unfold Parser.validateParsedData.
  set (L := map toLowerCase (keys data)).
  set (dups := filterFrom _ L 0).
  set (A := if _ && _ then _ else _).
  assert (HA : In "Warning: No author name specified"%string A
               <-> truthy (get data "Author") = false /\ truthy (get data "author") = false).
  { unfold A. destruct (truthy (get data "Author")), (truthy (get data "author")); simpl;
      intuition congruence. }
  assert (HAp : forall w, In w A -> startsWith w "Warning: Potential duplicate keys" = false).
  { unfold A. intros w. destruct (_ && _); [|done]. by intros [<-|[]]. }
  assert (Hd : dups = [] <-> List.NoDup L).
  { unfold dups. rewrite (duplicates_nil L L [] eq_refl), NoDup_decompose. simpl.
    by split; intros H a x b ->; apply (H a x b). }
  eexists. split; [reflexivity|].
  destruct dups as [|d dups'] eqn:Ed; simpl.
  - split; [exact HA|]. split; [|done]. split.
    + intros (w & Hw & Hp). rewrite (HAp w Hw) in Hp. discriminate.
    + intros H. destruct H. by apply Hd.
  - split; [|split; [|done]].
    + rewrite in_app_iff, HA. simpl. split; [|tauto].
      intros [H|[H|[]]]; [done | discriminate].
    + split.
      * intros _ H. apply Hd in H. discriminate.
      * intros _. eexists. split; [apply in_or_app; right; by left | reflexivity].
Qed.

End Duplicates.

(** ** Where the prototype of a frame can change *)

Section Coverage.

Lemma defineOwn_Forall (P : string * value -> Prop) (o : object) (k : string) (v : value) :
  Forall P o -> P (k, v) -> Forall P (defineOwn o k v).
Proof.
  intros Ho Hv. induction Ho as [|[k' v'] o Hkv Ho IH]; simpl.
  - constructor; [done | constructor].
  - destruct (String.eqb k' k) eqn:E.
    + apply String.eqb_eq in E. subst. constructor; done.
    + constructor; done.
Qed.

Lemma defineOwn_noPush (o : object) (k : string) (v : value) :
  Forall noPush o -> hasPushMethod v = false -> Forall noPush (defineOwn o k v).
Proof. intros Ho Hv. by apply defineOwn_Forall. Qed.

Lemma set_noPush (o o' : object) (k : string) (v : value) :
  Forall noPush o -> hasPushMethod v = false -> set o k v = Some o' -> Forall noPush o'.
Proof.
  intros Ho Hv. unfold set.
  destruct (getOwn o k); [intros [= <-]; by apply defineOwn_noPush|].
  destruct (String.eqb k "__proto__").
  - destruct (isObjectOrNull v); [discriminate | by intros [= <-]].
  - intros [= <-]. by apply defineOwn_noPush.
Qed.

Lemma assignValue_noPush (obj : object) (key : string) (v : value) :
  key <> "__proto__"%string ->
  Forall noPush obj -> hasPushMethod v = false ->
  exists obj', Parser.assignValue obj key v = Some obj' /\ Forall noPush obj'.
Proof.
  intros Hkey Ho Hv. unfold Parser.assignValue.
  assert (Hset : forall w, set obj key w = Some (defineOwn obj key w)).
  { intros w. apply set_defineOwn. by right. }
  destruct (negb (truthy (get obj key))).
  - rewrite Hset. eexists. split; [done|]. by apply defineOwn_noPush.
  - destruct (get obj key); rewrite ?Hset; eexists; (split; [done|]);
      by apply defineOwn_noPush.
Qed.

Lemma removelast_Forall {A} (Q : A -> Prop) (l : list A) :
  Forall Q l -> Forall Q (removelast l).
Proof.
  intros H. destruct l as [|a l _] using rev_ind; [done|].
  rewrite removelast_last. apply Forall_app in H. tauto.
Qed.

Lemma setTop_Forall (Q : object -> Prop) (stack : list object) (o : object) :
  Forall Q stack -> Q o -> Forall Q (Parser.setTop stack o).
Proof.
  intros Hs Ho. unfold Parser.setTop. apply Forall_app. split.
  - by apply removelast_Forall.
  - by constructor.
Qed.

Lemma last_Forall {A} (Q : A -> Prop) (l : list A) (x : A) :
  Forall Q l -> last l = Some x -> Q x.
Proof.
  intros H E. destruct l as [|a l _] using rev_ind; [discriminate|].
  rewrite last_snoc in E. injection E as <-. apply Forall_app in H.
  destruct H as [_ H]. by inversion H.
Qed.

Lemma assignTop_tame (st : Parser.State) (key : string) (v : value) :
  key <> "__proto__"%string ->
  hasPushMethod v = false ->
  Forall (Forall noPush) (Parser.stack st) ->
  match Parser.assignTop st key v with
  | Ok st' =>
      Forall (Forall noPush) (Parser.stack st')
      /\ Parser.multilineKey st' = Parser.multilineKey st
  | Err _ => True
  | OutOfModel => False
  end.
Proof.
  intros Hkey Hv Hs. unfold Parser.assignTop.
  destruct (last (Parser.stack st)) as [current|] eqn:E; [|done].
  destruct (assignValue_noPush current key v Hkey (last_Forall _ _ _ Hs E) Hv)
    as (obj' & -> & Hobj').
  simpl. split; [|done]. by apply setTop_Forall.
Qed.

Lemma getOwn_noPush (o : object) (k : string) (fields : list (string * value)) :
  Forall noPush o -> get o k = VObj fields -> hasPushMethod (VObj fields) = false.
Proof.
  intros Ho. unfold get. destruct (getOwn o k) as [w|] eqn:E.
  - intros ->. apply getOwn_In in E. rewrite List.Forall_forall in Ho. exact (Ho _ E).
  - by destruct (inherited k).
Qed.

Lemma handleBlockStart_tame (line : string) (n : nat) (stack : list object)
    (names : list string) :
  Forall (Forall noPush) stack ->
  match Parser.handleBlockStart line n stack names with
  | Ok (stack', _) => Forall (Forall noPush) stack'
  | Err _ => True
  | OutOfModel => False
  end.
Proof.
  intros Hs. unfold Parser.handleBlockStart. cbv zeta.
  destruct (String.eqb _ EmptyString); [done|].
  destruct (last stack) as [current|] eqn:E; [|done].
  pose proof (last_Forall _ _ _ Hs E) as Hcur.
  set (name := trim (replace "begin" line)).
  assert (Hcur' : exists current',
            (if negb (truthy (get current name)) then set current name (VArr [])
             else Some current) = Some current'
            /\ Forall noPush current').
  { destruct (negb (truthy (get current name))) eqn:Ht.
    - rewrite set_undefined by done. eexists. split; [done|]. by apply defineOwn_noPush.
    - by exists current. }
  destruct Hcur' as (current' & -> & Hc'). simpl.
  destruct (get current' name) as [| | | | |items|fields|] eqn:Hget; try done.
  - apply Forall_app. split; [|by repeat constructor].
    apply setTop_Forall; [done|]. by apply defineOwn_noPush.
  - pose proof (getOwn_noPush _ _ _ Hc' Hget) as Hp. simpl in Hp.
    by destruct (get fields "push").
Qed.

Lemma popBlock_tame (stack : list object) (name : string) :
  Forall (Forall noPush) stack -> Forall (Forall noPush) (Parser.popBlock stack name).
Proof.
  intros Hs. unfold Parser.popBlock.
  destruct (last stack) as [block|]; [|done].
  pose proof (removelast_Forall _ _ Hs) as Hrest.
  destruct (last (removelast stack)) as [parent|] eqn:E; [|done].
  apply setTop_Forall; [done|].
  pose proof (last_Forall _ _ _ Hrest E) as Hparent.
  unfold Parser.writeBack. destruct (get parent name); try done.
  destruct (last items); [|done]. by apply defineOwn_noPush.
Qed.

(** What [parseKeyValue] returns does not depend on the line number. *)
Lemma parseKeyValue_Ok (line : string) (n m : nat) (r : string * string * option string) :
  Parser.parseKeyValue line n = Ok r -> Parser.parseKeyValue line m = Ok r.
Proof.
  unfold Parser.parseKeyValue.
  repeat (match goal with
          | |- context [if ?b then _ else _] => destruct b
          | |- context [match ?l with [] => _ | _ :: _ => _ end] => destruct l
          end); done.
Qed.

Lemma parseKeyValue_covered (line : string) (n : nat) :
  Parser.parseKeyValue line n <> OutOfModel.
Proof.
  unfold Parser.parseKeyValue.
  repeat (match goal with
          | |- context [if ?b then _ else _] => destruct b
          | |- context [match ?l with [] => _ | _ :: _ => _ end] => destruct l
          end); done.
Qed.

Lemma processValue_noPush (value : string) :
  hasPushMethod (Parser.processValue value) = false.
Proof. unfold Parser.processValue. by destruct (includes _ ","). Qed.

Lemma processLine_tame (st : Parser.State) (n : nat) (rawLine : string) :
  tame st ->
  assignsProto rawLine = false ->
  match Parser.processLine None st n rawLine with
  | Ok st' => tame st'
  | Err _ => True
  | OutOfModel => False
  end.
Proof.
  intros [Hs Hk] Hline. unfold Parser.processLine.
  destruct (Parser.inMultiline st).
  { destruct (Parser.handleMultilineContent _ _) as [[] buffer]; [|done].
    assert (Hkey : default "null"%string (Parser.multilineKey st) <> "__proto__"%string).
    { destruct (Parser.multilineKey st); simpl; [congruence | discriminate]. }
    pose proof (assignTop_tame st _ (VStr (trim (join buffer (String LF EmptyString))))
                  Hkey eq_refl Hs) as H.
    destruct (Parser.assignTop st _ _) as [st'| |]; simpl; [|done..].
    split; [tauto | discriminate]. }
  destruct (_ || _); [done|].
  destruct (test "begin" _).
  { simpl. pose proof (handleBlockStart_tame (trim rawLine) n _ (Parser.blockNames st) Hs) as H.
    destruct (Parser.handleBlockStart _ _ _ _) as [[stack' names]| |]; simpl; [|done..].
    by split. }
  destruct (test "end" _).
  { simpl. unfold Parser.handleBlockEnd.
    destruct (String.eqb _ EmptyString); [done|].
    destruct (last (Parser.blockNames st)); [|done].
    destruct (negb _); [done|]. simpl. split; [|done]. by apply popBlock_tame. }
  destruct (Parser.parseKeyValue _ _) as [[[key val] type]| |] eqn:E; simpl;
    [|done|by apply parseKeyValue_covered in E].
  assert (Hkey : key <> "__proto__"%string).
  { unfold assignsProto in Hline. rewrite (parseKeyValue_Ok _ n 0 _ E) in Hline.
    by apply String.eqb_neq. }
  destruct (startsWith val tripleQuote).
  { split; [done|]. simpl. congruence. }
  unfold Parser.assignKeyValue.
  assert (H : forall v, hasPushMethod v = false ->
            match Parser.assignTop st key v with
            | Ok st' => tame st'
            | Err _ => True
            | OutOfModel => False
            end).
  { intros v Hv. pose proof (assignTop_tame st key v Hkey Hv Hs) as H.
    destruct (Parser.assignTop st key v) as [st'| |]; [|done..].
    destruct H as [H1 H2]. split; [done | by rewrite H2]. }
  destruct type; apply H; [reflexivity | apply processValue_noPush].
Qed.

Lemma processLines_tame (lines : list string) :
  forall (n : nat) (st : Parser.State),
    tame st ->
    forallb (fun line => negb (assignsProto line)) lines = true ->
    match Parser.processLines None lines n st with
    | Ok st' => tame st'
    | Err _ => True
    | OutOfModel => False
    end.
Proof.
  induction lines as [|l lines IH]; intros n st Ht Hlines; simpl; [done|].
  simpl in Hlines. apply andb_true_iff in Hlines. destruct Hlines as [Hl Hlines].
  apply negb_true_iff in Hl.
  pose proof (processLine_tame st n l Ht Hl) as H.
  destruct (Parser.processLine None st n l) as [st1| |]; simpl; [|done..].
  by apply IH.
Qed.

(** X20. Where a parse leaves plain objects. Without a plugin manager the
    setter of [__proto__] is called by a statement with the key [__proto__]
    only, and [push] is called on a list or fails with its [TypeError]:
    a document none of whose lines, read as a statement, has that key is
    parsed on plain objects from its first line to its last, and the parse
    returns or throws. *)
Theorem plain_frames (input : string) :
  forallb (fun line => negb (assignsProto line)) (splitLines input) = true ->
  (exists doc, Parser.parseAuthorDSL input None = Ok doc)
  \/ (exists e, Parser.parseAuthorDSL input None = Err e).
Proof.
  intros Hlines. unfold Parser.parseAuthorDSL.
  destruct (Parser.validateInput input) as [[]|e|] eqn:Ev; simpl.
  2:{ right. by exists e. }
  2:{ unfold Parser.validateInput in Ev. by destruct (_ =? 0)%nat. }
  unfold Parser.parseEngine.
  assert (Hinit : tame Parser.initial).
  { split; [by repeat constructor | discriminate]. }
  pose proof (processLines_tame (splitLines input) 1 Parser.initial Hinit Hlines) as H.
  destruct (Parser.processLines None _ 1 Parser.initial) as [st|e|]; simpl; [| |done].
  - unfold Parser.finish. destruct (Parser.stack st) as [|r [|]].
    + right. by eexists.
    + destruct (Parser.inMultiline st); [right | left]; by eexists.
    + right. by eexists.
  - right. by exists e.
Qed.

(** A document that names no [__proto__] is parsed; the statement
    [__proto__: x] re-links the prototype of the root frame, and what
    [length: 5] then meets under [length] is not told by the model. *)
Lemma plain_frames_witness :
  ((exists doc, Parser.parseAuthorDSL Samples.profileInput None = Ok doc)
   \/ (exists e, Parser.parseAuthorDSL Samples.profileInput None = Err e))
  /\ assignsProto "__proto__: x" = true
  /\ Parser.parseAuthorDSL ("__proto__: x" +:+ Samples.newline +:+ "length: 5") None
     = OutOfModel.
Proof.
  split; [|split; reflexivity].
  apply (plain_frames Samples.profileInput). vm_compute. reflexivity.
Defined.

End Coverage.
